(** * Banco Azul payment API: creation idempotency and webhook reconciliation

    The backend keeps two in-memory dictionaries, the payments and the
    idempotency cache, and exposes three handlers: payment creation
    (POST /payments), status lookup (GET /payments/:id) and the webhook
    receiver (POST /webhooks).  The guards of the handlers are the ones
    documented in SECURITY_REVIEW.md:

      if idempotency_key in cache: return existing_payment          (l. 59-60)
      if payment.status == webhook.status and payment.webhook_count > 0:
          return {"idempotent": True}                               (l. 63-64)
      webhook_time = datetime.fromisoformat(webhook.timestamp)
      if webhook_time < payment.updated_at:
          return {"out_of_order": True}                             (l. 99-103)
      payment.webhook_count += 1                                    (l. 290)

    The statements between those guards (lookup of the payment, the
    assignments of the applying branch, validation and allocation of a
    new payment) are not part of the documented excerpts; they follow
    sections 3 and 4 of the specification and are marked as such. *)

From stdpp Require Import gmap strings list fin_maps.
From Stdlib Require Import ZArith Lia Ascii.

Local Open Scope Z_scope.

(** ** Data model *)

(** Payment status: pending is the initial one, the others are terminal. *)
Inductive Status : Type := pending | approved | declined | expired.

#[global] Instance Status_eq_dec : EqDecision Status.
Proof. solve_decision. Defined.

Definition terminal (s : Status) : bool :=
  match s with
  | pending => false
  | approved | declined | expired => true
  end.

(** customer{email,name,document} of the creation request. *)
Record Customer : Type := mkCustomer {
  email : string;
  name : string;
  document : string
}.

(** Body of POST /payments.  A field the client may leave out is an
    option. *)
Record PaymentRequest : Type := mkRequest {
  rq_amount : option string;
  rq_currency : string;
  payment_method : string;
  bank : string;
  customer : option Customer;
  rq_redirect_url : string
}.

(** A payment record.  Timestamps are instants on the integer time line
    (what datetime.fromisoformat yields, as a count of microseconds);
    updated_at is the watermark the specification calls last_event_at and
    webhook_count is its applied_event_count. *)
Record Payment : Type := mkPayment {
  payment_id : string;
  status : Status;
  amount : string;
  currency : string;
  redirect_url : string;
  creation_key : string;
  created_at : Z;
  updated_at : Z;
  webhook_count : nat
}.

(** Body of POST /webhooks: {payment_id, status, timestamp, signature}. *)
Record WebhookPayload : Type := mkWebhook {
  wh_payment_id : string;
  wh_status : Status;
  timestamp : Z;
  signature : string
}.

#[global] Instance WebhookPayload_eq_dec : EqDecision WebhookPayload.
Proof. solve_decision. Defined.

(** The two shared dictionaries of the API. *)
Record Store : Type := mkStore {
  payments : gmap string Payment;
  idempotency_cache : gmap string string
}.

Definition empty_store : Store :=
  {| payments := ∅; idempotency_cache := ∅ |}.

(** Error surface of the handlers.  InternalError stands for the
    KeyError of a dictionary access that finds nothing. *)
Inductive Error : Type := NotFound | ValidationError | InternalError.

(** ReconcileResult{applied, outOfOrder, duplicate}; the source answers
    {"idempotent": True} for duplicate and {"out_of_order": True} for
    outOfOrder. *)
Record ReconcileResult : Type := mkResult {
  applied : bool;
  outOfOrder : bool;
  duplicate : bool
}.

Definition res_applied : ReconcileResult :=
  {| applied := true; outOfOrder := false; duplicate := false |}.
Definition res_out_of_order : ReconcileResult :=
  {| applied := false; outOfOrder := true; duplicate := false |}.
Definition res_idempotent : ReconcileResult :=
  {| applied := false; outOfOrder := false; duplicate := true |}.

(** ** Webhook processing *)

(** SECURITY_REVIEW.md l. 63:
    payment.status == webhook.status and payment.webhook_count > 0 *)
Definition is_idempotent (payment : Payment) (webhook : WebhookPayload) : bool :=
  bool_decide (status payment = wh_status webhook)
  && bool_decide (0 < webhook_count payment)%nat.

(** SECURITY_REVIEW.md l. 101: webhook_time < payment.updated_at *)
Definition is_out_of_order (payment : Payment) (webhook : WebhookPayload) : bool :=
  bool_decide (timestamp webhook < updated_at payment).

(** Modelled from the spec: the assignments of the applying branch of the
    webhook handler, which the documented excerpts do not show
    (section 4.2: set status to the event's, last_event_at to the event
    timestamp, increment applied_event_count).  The increment is the
    source's payment.webhook_count += 1. *)
Definition apply_webhook (payment : Payment) (webhook : WebhookPayload) : Payment :=
  {| payment_id := payment_id payment;
     status := wh_status webhook;
     amount := amount payment;
     currency := currency payment;
     redirect_url := redirect_url payment;
     creation_key := creation_key payment;
     created_at := created_at payment;
     updated_at := timestamp webhook;
     webhook_count := S (webhook_count payment) |}.

(** Modelled from the spec: the lookup that opens the webhook handler
    (section 4.2, NotFound for an unknown payment_id) and the order of its
    two guards, the duplicate test before the ordering test; the handler
    body is not among the source files.  The spec's name of this
    operation is Apply. *)
Definition receive_webhook (st : Store) (webhook : WebhookPayload)
    : Store * (Error + ReconcileResult) :=
  match payments st !! wh_payment_id webhook with
  | None => (st, inl NotFound)
  | Some payment =>
      if is_idempotent payment webhook then (st, inr res_idempotent)
      else if is_out_of_order payment webhook then (st, inr res_out_of_order)
      else
        ({| payments :=
              <[wh_payment_id webhook := apply_webhook payment webhook]> (payments st);
            idempotency_cache := idempotency_cache st |},
         inr res_applied)
  end.

(** GET /payments/:id, the spec's Get. *)
Definition get_payment (st : Store) (pid : string) : Error + Payment :=
  match payments st !! pid with
  | Some payment => inr payment
  | None => inl NotFound
  end.

(** ** Payment creation *)

Section Creation.

(** The fixed set of accepted payment methods; the source files name
    PSE, PIX and OXXO but do not show the table. *)
Variable allowed_methods : list string.

(** Modelled from the spec: the input constraints of section 4.1
    (payment_method in the allowed set, customer and amount present);
    the validating code is not among the source files. *)
Definition valid_request (request : PaymentRequest) : bool :=
  bool_decide (payment_method request ∈ allowed_methods)
  && bool_decide (is_Some (rq_amount request))
  && bool_decide (is_Some (customer request)).

(** Modelled from the spec: the record a first-time creation allocates
    (section 4.1: status pending, created_at = last_event_at = now). *)
Definition new_payment (pid : string) (request : PaymentRequest)
    (idempotency_key : string) (now : Z) : Payment :=
  {| payment_id := pid;
     status := pending;
     amount := default EmptyString (rq_amount request);
     currency := rq_currency request;
     redirect_url := rq_redirect_url request;
     creation_key := idempotency_key;
     created_at := now;
     updated_at := now;
     webhook_count := 0 |}.

(** POST /payments, the spec's Create.  The cache test is the source's
    [if idempotency_key in cache: return existing_payment]; no expiry is
    consulted.  Modelled from the spec: validation before the cache test,
    and the allocating branch (a payment id that is not in use, standing
    for the uuid4 of the source, the new record and the cache entry).
    The boolean of the result is isNew. *)
Definition create_payment (st : Store) (request : PaymentRequest)
    (idempotency_key : string) (now : Z)
    : Store * (Error + Payment * bool) :=
  if negb (valid_request request) then (st, inl ValidationError)
  else
    match idempotency_cache st !! idempotency_key with
    | Some pid =>
        match payments st !! pid with
        | Some existing_payment => (st, inr (existing_payment, false))
        | None => (st, inl InternalError)
        end
    | None =>
        let pid := fresh (dom (payments st)) in
        let payment := new_payment pid request idempotency_key now in
        ({| payments := <[pid := payment]> (payments st);
            idempotency_cache := <[idempotency_key := pid]> (idempotency_cache st) |},
         inr (payment, true))
    end.

End Creation.

(** ** Sequences of requests *)

(** A request the API serves. *)
Inductive Request : Type :=
  | PostPayment (request : PaymentRequest) (idempotency_key : string) (now : Z)
  | PostWebhook (webhook : WebhookPayload).

(** The store after one request. *)
Definition handle (allowed_methods : list string) (st : Store) (rq : Request) : Store :=
  match rq with
  | PostPayment request idempotency_key now =>
      (create_payment allowed_methods st request idempotency_key now).1
  | PostWebhook webhook => (receive_webhook st webhook).1
  end.

(** The store after a sequence of requests, served in order. *)
Definition run (allowed_methods : list string) (st : Store) (rqs : list Request) : Store :=
  foldl (handle allowed_methods) st rqs.

(** The store after a sequence of webhook deliveries, in delivery order. *)
Definition deliver (st : Store) (webhooks : list WebhookPayload) : Store :=
  foldl (λ st webhook, (receive_webhook st webhook).1) st webhooks.

(** The projection of the webhook handler on the payment it addresses. *)
Definition reconcile (payment : Payment) (webhook : WebhookPayload) : Payment :=
  if is_idempotent payment webhook then payment
  else if is_out_of_order payment webhook then payment
  else apply_webhook payment webhook.

(** ** Invariants of the store *)

(** Every cached key leads to a stored payment, and every payment is
    stored under its own id. *)
Definition store_consistent (st : Store) : Prop :=
  (∀ key pid, idempotency_cache st !! key = Some pid → is_Some (payments st !! pid))
  ∧ (∀ pid payment, payments st !! pid = Some payment → payment_id payment = pid).

(** The fields a webhook never touches. *)
Definition same_identity (p q : Payment) : Prop :=
  payment_id p = payment_id q ∧ creation_key p = creation_key q
  ∧ created_at p = created_at q ∧ amount p = amount q
  ∧ currency p = currency q ∧ redirect_url p = redirect_url q.

(** ** Concrete data used in the examples *)

Definition demo_methods : list string := ["PSE"; "PIX"; "OXXO"]%string.

Definition demo_request : PaymentRequest :=
  {| rq_amount := Some "50000"%string;
     rq_currency := "COP";
     payment_method := "PSE";
     bank := "banco_azul";
     customer := Some (mkCustomer "demo@example.com" "Juan Demo" "1234567890");
     rq_redirect_url := "http://localhost:3000/return" |}.

(** The store after one creation at time 100 with key k1: a single
    pending payment, whose id is "0". *)
Definition demo_store : Store :=
  (create_payment demo_methods empty_store demo_request "k1" 100).1.

Definition demo_payment : Payment :=
  new_payment "0" demo_request "k1" 100.

Definition webhook_for (pid : string) (s : Status) (t : Z) : WebhookPayload :=
  {| wh_payment_id := pid; wh_status := s; timestamp := t;
     signature := "mock_signature" |}.

(** The demo payment after an approved webhook at time 110. *)
Definition approved_store : Store :=
  deliver demo_store [webhook_for "0" approved 110].

Definition approved_payment : Payment :=
  apply_webhook demo_payment (webhook_for "0" approved 110).

Definition status_of (st : Store) (pid : string) : option Status :=
  status <$> payments st !! pid.


(** ** Answers of a delivery sequence *)

(** Whether an answer of the webhook handler says applied. *)
Definition answered_applied (r : Error + ReconcileResult) : bool :=
  match r with
  | inr r => applied r
  | inl _ => false
  end.

(** The number of deliveries of a sequence that address [pid] and are
    answered applied. *)
Fixpoint applied_to (pid : string) (st : Store) (webhooks : list WebhookPayload) : nat :=
  match webhooks with
  | [] => 0%nat
  | webhook :: webhooks =>
      ((if bool_decide (wh_payment_id webhook = pid)
           && answered_applied (receive_webhook st webhook).2
        then 1 else 0)
       + applied_to pid (receive_webhook st webhook).1 webhooks)%nat
  end.

(** Keys and payments correspond one to one: every payment is stored
    under its own id and reached from its own creation key, and the two
    dictionaries have the same number of entries. *)
Definition one_to_one (st : Store) : Prop :=
  (∀ pid payment, payments st !! pid = Some payment →
     payment_id payment = pid
     ∧ idempotency_cache st !! creation_key payment = Some pid)
  ∧ (∀ key pid, idempotency_cache st !! key = Some pid →
       ∃ payment, payments st !! pid = Some payment ∧ creation_key payment = key)
  ∧ size (payments st) = size (idempotency_cache st).

(** ** Masking of e-mail addresses in logs *)

(** SECURITY_REVIEW.md l. 214-216:

      def mask_email(email):
          user, domain = email.split('@')
          return f"{user[:2]}***@{domain}"

    A Python string is a sequence of characters; the development is
    parametric in the character type, with the two characters the
    function writes, '@' and '*'. *)
Section MaskEmail.

Context {char : Type} `{EqDecision char}.
Variables (at_sign star : char).

(** s.split(sep) for a separator of one character: the pieces between
    the occurrences of the separator, in order; never an empty list. *)
Fixpoint str_split (sep : char) (s : list char) : list (list char) :=
  match s with
  | [] => [[]]
  | c :: s' =>
      if decide (c = sep) then [] :: str_split sep s'
      else
        match str_split sep s' with
        | part :: parts => (c :: part) :: parts
        | [] => [[c]]
        end
  end.

(** sep.join(parts). *)
Fixpoint str_join (sep : char) (parts : list (list char)) : list char :=
  match parts with
  | [] => []
  | [part] => part
  | part :: parts => part ++ sep :: str_join sep parts
  end.

(** None stands for the ValueError of the tuple assignment when the
    split does not yield exactly two pieces. *)
Definition mask_email (email : list char) : option (list char) :=
  match str_split at_sign email with
  | [user; domain] => Some (take 2%nat user ++ [star; star; star; at_sign] ++ domain)
  | _ => None
  end.

End MaskEmail.

(** The characters of a literal made of ASCII characters only, where
    one byte is one character. *)
Definition chars (s : string) : list ascii := String.list_ascii_of_string s.

(** ** The checkout page (frontend/app/page.tsx) *)

(** The Home component keeps five pieces of React state and has two
    asynchronous handlers, createPayment and simulateWebhook.  A handler
    runs up to its first await when the button is clicked and resumes
    when the awaited delay or HTTP call completes; in between other
    clicks and completions may happen.  The model keeps the component
    state, the handlers that are suspended at an await (each with the
    variables its closure captured) and the HTTP requests sent so far.
    alert() shows a dialog and changes nothing of this. *)
Module Frontend.

Local Open Scope string_scope.

(** interface Payment of page.tsx. *)
Record Payment : Type := mkPayment {
  payment_id : string;
  status : string;
  redirect_url : option string;
  amount : string;
  currency : string
}.

(** What the error cell can hold.  It is declared string | null, but
    the catch blocks store [err.response?.data?.detail || fallback] with
    err of type any, so a truthy detail that is not a string (the list
    of objects of a 422 answer, say) is stored as it is. *)
Inductive ErrorValue : Type :=
  | ErrorText (text : string)
  | ErrorOther (repr : string).

(** The useState cells of Home. *)
Record State : Type := mkState {
  loading : bool;
  payment : option Payment;
  error : option ErrorValue;
  demoMode : bool;
  apiUrl : string
}.

(** useState(false), useState(null), useState(null), useState(true),
    useState(''). *)
Definition initial_state : State :=
  {| loading := false; payment := None; error := None;
     demoMode := true; apiUrl := EmptyString |}.

(** [x || d] on a string that may be undefined: the empty string and
    undefined are falsy. *)
Definition or_else (x : option string) (d : string) : string :=
  match x with
  | Some s => if decide (s = EmptyString) then d else s
  | None => d
  end.

(** err.response?.data?.detail as the [||] of a catch block sees it:
    absent (undefined, null, or another falsy value that is not a
    string), a string (possibly empty), or any other truthy value. *)
Inductive Detail : Type :=
  | NoDetail
  | TextDetail (text : string)
  | OtherDetail (repr : string).

(** [detail || fallback] *)
Definition detail_or (detail : Detail) (fallback : string) : ErrorValue :=
  match detail with
  | NoDetail => ErrorText fallback
  | TextDetail text =>
      if decide (text = EmptyString) then ErrorText fallback else ErrorText text
  | OtherDetail repr => ErrorOther repr
  end.

(** An HTTP request issued through axios. *)
Inductive HttpRequest : Type :=
  | PostPayments (url : string) (body : PaymentRequest) (idempotency_key : string)
  | PostWebhooks (url : string) (pid st timestamp signature : string)
  | GetPayments (url : string).

(** A handler suspended at an await. *)
Inductive Suspended : Type :=
  | CreateDelay
      (* createPayment, demo mode: await setTimeout 800 *)
  | CreatePost
      (* createPayment: await axios.post(`${apiUrl}/payments`, ...) *)
  | WebhookDelay (captured : Payment) (st : string)
      (* simulateWebhook, demo mode: await setTimeout 500 *)
  | WebhookPost (captured : Payment) (url : string)
      (* simulateWebhook: await axios.post(`${apiUrl}/webhooks`, ...) *)
  | WebhookGet (captured : Payment).
      (* simulateWebhook: await axios.get(`${apiUrl}/payments/${id}`) *)

Definition is_create (t : Suspended) : bool :=
  match t with
  | CreateDelay | CreatePost => true
  | _ => false
  end.

Record Page : Type := mkPage {
  state : State;
  suspended : list Suspended;
  sent : list HttpRequest
}.

Definition initial_page : Page :=
  {| state := initial_state; suspended := []; sent := [] |}.

Definition set_loading (b : bool) (s : State) : State :=
  {| loading := b; payment := payment s; error := error s;
     demoMode := demoMode s; apiUrl := apiUrl s |}.
Definition set_payment (p : Payment) (s : State) : State :=
  {| loading := loading s; payment := Some p; error := error s;
     demoMode := demoMode s; apiUrl := apiUrl s |}.
Definition set_error (e : option ErrorValue) (s : State) : State :=
  {| loading := loading s; payment := payment s; error := e;
     demoMode := demoMode s; apiUrl := apiUrl s |}.

(** The effect run after the first render:
      const url = process.env.NEXT_PUBLIC_API_URL || '';
      setApiUrl(url || 'http://localhost:8000');
      setDemoMode(!url); *)
Definition mount (env_api_url : option string) (s : State) : State :=
  let url := or_else env_api_url EmptyString in
  {| loading := loading s; payment := payment s; error := error s;
     demoMode := bool_decide (url = EmptyString);
     apiUrl := or_else (Some url) "http://localhost:8000" |}.

(** The body createPayment posts. *)
Definition create_body (origin : string) : PaymentRequest :=
  {| rq_amount := Some "50000";
     rq_currency := "COP";
     payment_method := "PSE";
     bank := "banco_azul";
     customer := Some (mkCustomer "demo@example.com" "Juan Demo" "1234567890");
     rq_redirect_url := origin +:+ "/return" |}.

(** The payment createPayment makes up in demo mode; [random] is
    Math.random().toString(36).substring(7). *)
Definition demo_payment_data (random : string) : Payment :=
  {| payment_id := "pay_demo_" +:+ random;
     status := "pending";
     redirect_url := Some "https://banco-azul.example.com/pay/demo";
     amount := "50000";
     currency := "COP" |}.

(** createPayment up to its await: setLoading(true); setError(null);
    then the delay in demo mode, the POST otherwise.  [uuid] is
    crypto.randomUUID(). *)
Definition createPayment (origin uuid : string) (pg : Page) : Page :=
  let s := set_error None (set_loading true (state pg)) in
  if demoMode (state pg)
  then {| state := s; suspended := suspended pg ++ [CreateDelay]; sent := sent pg |}
  else {| state := s;
          suspended := suspended pg ++ [CreatePost];
          sent := sent pg ++
                  [PostPayments (apiUrl (state pg) +:+ "/payments")
                     (create_body origin) uuid] |}.

(** The argument of simulateWebhook: 'approved' | 'declined'. *)
Inductive Choice : Type := Approve | Decline.

Definition choice_status (c : Choice) : string :=
  match c with
  | Approve => "approved"
  | Decline => "declined"
  end.

(** simulateWebhook up to its await: nothing without a payment;
    otherwise the delay in demo mode, the POST otherwise.  [now] is
    new Date().toISOString(). *)
Definition simulateWebhook (c : Choice) (now : string) (pg : Page) : Page :=
  match payment (state pg) with
  | None => pg
  | Some p =>
      if demoMode (state pg)
      then {| state := state pg;
              suspended := suspended pg ++ [WebhookDelay p (choice_status c)];
              sent := sent pg |}
      else {| state := state pg;
              suspended := suspended pg ++
                           [WebhookPost p (apiUrl (state pg) +:+ "/payments/"
                                           +:+ payment_id p)];
              sent := sent pg ++
                      [PostWebhooks (apiUrl (state pg) +:+ "/webhooks")
                         (payment_id p) (choice_status c) now "mock_signature"] |}
  end.

(** {...payment, status: status} *)
Definition with_status (p : Payment) (st : string) : Payment :=
  {| payment_id := payment_id p; status := st; redirect_url := redirect_url p;
     amount := amount p; currency := currency p |}.

(** What is rendered, as far as it decides which clicks are possible:
    the create button is disabled while loading, and the two webhook
    buttons exist only under [payment && payment.status === 'pending']. *)
Definition create_enabled (s : State) : bool := negb (loading s).

Definition webhook_buttons_shown (s : State) : bool :=
  match payment s with
  | Some p => bool_decide (status p = "pending")
  | None => false
  end.

(** The error box is rendered under [error &&]: whether the stored
    error is truthy. *)
Definition error_shown (s : State) : bool :=
  match error s with
  | Some (ErrorText text) => negb (bool_decide (text = EmptyString))
  | Some (ErrorOther _) => true
  | None => false
  end.

(** What can happen to the page. *)
Inductive Event : Type :=
  | Mounted
  | ClickCreate (origin uuid : string)
  | ClickWebhook (c : Choice) (now : string)
  | DelayElapsed (i : nat) (random : string)
  | Responded (i : nat) (data : Payment)
  | Failed (i : nat) (detail : Detail).

(** A suspended handler resumes after its delay. *)
Definition resume_delay (t : Suspended) (random : string) (pg : Page) : option Page :=
  match t with
  | CreateDelay =>
      Some {| state := set_loading false (set_payment (demo_payment_data random) (state pg));
              suspended := suspended pg; sent := sent pg |}
  | WebhookDelay captured st =>
      Some {| state := set_payment (with_status captured st) (state pg);
              suspended := suspended pg; sent := sent pg |}
  | _ => None
  end.

(** A suspended handler resumes with the response of its HTTP call. *)
Definition resume_response (t : Suspended) (data : Payment) (pg : Page) : option Page :=
  match t with
  | CreatePost =>
      Some {| state := set_loading false (set_payment data (state pg));
              suspended := suspended pg; sent := sent pg |}
  | WebhookPost captured url =>
      Some {| state := state pg;
              suspended := suspended pg ++ [WebhookGet captured];
              sent := sent pg ++ [GetPayments url] |}
  | WebhookGet captured =>
      Some {| state := set_payment data (state pg);
              suspended := suspended pg; sent := sent pg |}
  | _ => None
  end.

(** A suspended handler resumes in its catch block;
    [detail] is err.response?.data?.detail. *)
Definition resume_failure (t : Suspended) (detail : Detail) (pg : Page)
    : option Page :=
  match t with
  | CreatePost =>
      Some {| state := set_loading false
                         (set_error (Some (detail_or detail "Failed to create payment"))
                            (state pg));
              suspended := suspended pg; sent := sent pg |}
  | WebhookPost _ _ | WebhookGet _ =>
      Some {| state := set_error (Some (detail_or detail "Failed to send webhook"))
                         (state pg);
              suspended := suspended pg; sent := sent pg |}
  | _ => None
  end.

(** The page without its [i]-th suspended handler. *)
Definition take_out (i : nat) (pg : Page) : Page :=
  {| state := state pg; suspended := delete i (suspended pg); sent := sent pg |}.

Section Transitions.

(** process.env.NEXT_PUBLIC_API_URL, fixed when the page is built. *)
Variable env_api_url : option string.

(** One event; None when the event cannot happen in this state (the
    button is disabled or not rendered, or no such handler is suspended
    at an await of that kind). *)
Definition step (pg : Page) (ev : Event) : option Page :=
  match ev with
  | Mounted =>
      Some {| state := mount env_api_url (state pg);
              suspended := suspended pg; sent := sent pg |}
  | ClickCreate origin uuid =>
      if create_enabled (state pg) then Some (createPayment origin uuid pg) else None
  | ClickWebhook c now =>
      if webhook_buttons_shown (state pg) then Some (simulateWebhook c now pg) else None
  | DelayElapsed i random =>
      t ← suspended pg !! i; resume_delay t random (take_out i pg)
  | Responded i data =>
      t ← suspended pg !! i; resume_response t data (take_out i pg)
  | Failed i detail =>
      t ← suspended pg !! i; resume_failure t detail (take_out i pg)
  end.

(** A sequence of events, in order. *)
Fixpoint steps (pg : Page) (evs : list Event) : option Page :=
  match evs with
  | [] => Some pg
  | ev :: evs => pg' ← step pg ev; steps pg' evs
  end.

End Transitions.

(** A payment as demo mode makes them. *)
Definition demo_shaped (p : Payment) : Prop :=
  (∃ random, payment_id p = "pay_demo_" +:+ random)
  ∧ (status p = "pending" ∨ status p = "approved" ∨ status p = "declined")
  ∧ redirect_url p = Some "https://banco-azul.example.com/pay/demo"
  ∧ amount p = "50000" ∧ currency p = "COP".

Definition demo_suspended (t : Suspended) : Prop :=
  match t with
  | CreateDelay => True
  | WebhookDelay captured st =>
      demo_shaped captured ∧ (st = "approved" ∨ st = "declined")
  | _ => False
  end.

(** What holds of every page in demo mode. *)
Definition demo_invariant (pg : Page) : Prop :=
  demoMode (state pg) = true
  ∧ sent pg = []
  ∧ error (state pg) = None
  ∧ Forall demo_suspended (suspended pg)
  ∧ (∀ p, payment (state pg) = Some p → demo_shaped p).

(** The number of suspended createPayment handlers. *)
Definition creations_in_flight (pg : Page) : nat :=
  length (filter (λ t, is_create t = true) (suspended pg)).

End Frontend.

(** ** Polling for a payment status *)

(** SECURITY_REVIEW.md l. 1272-1290 (also TEST_STRATEGY.md l. 221-233):

      start = time.time()
      while time.time() - start < timeout:
          payment = await get_payment(payment_id)
          if payment["status"] == expected_status:
              return payment
          await asyncio.sleep(poll_interval)
      raise TimeoutError(...)

    The function reads the clock and the payment once per iteration.
    The model receives what it will read: the successive clock readings
    of the loop test, each with the payment that get_payment answers at
    that moment.  The loop test itself is a parameter, so nothing is
    assumed about the arithmetic of the clock. *)
Inductive PollOutcome : Type :=
  | Returned (payment : gmap string string)
  | TimeoutError
  | KeyError
  | StillPolling.

Section Polling.

Context {time : Type}.

(** [within_timeout start now] is the loop test
    time.time() - start < timeout. *)
Variable within_timeout : time → time → bool.

(** StillPolling: the readings given are used up and the loop has not
    left; KeyError: the answer of get_payment has no "status". *)
Fixpoint wait_for_payment_status (expected_status : string) (start : time)
    (world : list (time * gmap string string)) : PollOutcome :=
  match world with
  | [] => StillPolling
  | (now, payment) :: world =>
      if within_timeout start now then
        match payment !! "status"%string with
        | None => KeyError
        | Some s =>
            if decide (s = expected_status) then Returned payment
            else wait_for_payment_status expected_status start world
        end
      else TimeoutError
  end.

End Polling.

(** A poll that was in time and saw a status other than the expected
    one. *)
Definition missed {time : Type} (within_timeout : time → time → bool)
    (expected_status : string) (start : time)
    (reading : time * gmap string string) : Prop :=
  within_timeout start reading.1 = true
  ∧ ∃ s, reading.2 !! "status"%string = Some s ∧ s ≠ expected_status.

(** * Properties *)

(** ** The webhook handler, one delivery *)

Lemma receive_webhook_unknown st w :
  payments st !! wh_payment_id w = None →
  receive_webhook st w = (st, inl NotFound).
Proof. intros H. unfold receive_webhook. by rewrite H. Qed.

Lemma receive_webhook_idempotent st w p :
  payments st !! wh_payment_id w = Some p →
  is_idempotent p w = true →
  receive_webhook st w = (st, inr res_idempotent).
Proof. intros H Hd. unfold receive_webhook. by rewrite H, Hd. Qed.

Lemma receive_webhook_out_of_order st w p :
  payments st !! wh_payment_id w = Some p →
  is_idempotent p w = false →
  is_out_of_order p w = true →
  receive_webhook st w = (st, inr res_out_of_order).
Proof. intros H Hd Ho. unfold receive_webhook. by rewrite H, Hd, Ho. Qed.

Lemma receive_webhook_applied st w p :
  payments st !! wh_payment_id w = Some p →
  is_idempotent p w = false →
  is_out_of_order p w = false →
  receive_webhook st w =
    ({| payments := <[wh_payment_id w := apply_webhook p w]> (payments st);
        idempotency_cache := idempotency_cache st |}, inr res_applied).
Proof. intros H Hd Ho. unfold receive_webhook. by rewrite H, Hd, Ho. Qed.

Lemma is_idempotent_true p w :
  is_idempotent p w = true ↔ status p = wh_status w ∧ (0 < webhook_count p)%nat.
Proof.
  unfold is_idempotent.
  rewrite andb_true_iff, !bool_decide_eq_true. done.
Qed.

Lemma is_idempotent_false p w :
  is_idempotent p w = false ↔ ¬ (status p = wh_status w ∧ (0 < webhook_count p)%nat).
Proof. rewrite <- is_idempotent_true. by destruct (is_idempotent p w). Qed.

Lemma is_out_of_order_true p w :
  is_out_of_order p w = true ↔ timestamp w < updated_at p.
Proof. unfold is_out_of_order. apply bool_decide_eq_true. Qed.

Lemma is_out_of_order_false p w :
  is_out_of_order p w = false ↔ updated_at p ≤ timestamp w.
Proof. unfold is_out_of_order. rewrite bool_decide_eq_false. lia. Qed.

(** The handler never touches the idempotency cache. *)
Lemma receive_webhook_cache st w :
  idempotency_cache (receive_webhook st w).1 = idempotency_cache st.
Proof.
  unfold receive_webhook.
  destruct (payments st !! wh_payment_id w) as [p|]; [|done].
  destruct (is_idempotent p w); [done|].
  by destruct (is_out_of_order p w).
Qed.

(** On the addressed payment the handler acts as [reconcile]. *)
Lemma receive_webhook_reconcile st w p :
  payments st !! wh_payment_id w = Some p →
  payments (receive_webhook st w).1 !! wh_payment_id w = Some (reconcile p w).
Proof.
  intros H. unfold receive_webhook, reconcile. rewrite H.
  destruct (is_idempotent p w); [done|].
  destruct (is_out_of_order p w); [done|].
  simpl. apply lookup_insert_eq.
Qed.

(** Every other payment is left alone. *)
Lemma receive_webhook_other st w pid :
  pid ≠ wh_payment_id w →
  payments (receive_webhook st w).1 !! pid = payments st !! pid.
Proof.
  intros Hne. unfold receive_webhook.
  destruct (payments st !! wh_payment_id w) as [p|]; [|done].
  destruct (is_idempotent p w); [done|].
  destruct (is_out_of_order p w); [done|].
  simpl. by rewrite lookup_insert_ne.
Qed.

Lemma reconcile_updated_at p w : updated_at p ≤ updated_at (reconcile p w).
Proof.
  unfold reconcile.
  destruct (is_idempotent p w); [lia|].
  destruct (is_out_of_order p w) eqn:Ho; [lia|].
  apply is_out_of_order_false in Ho. simpl. done.
Qed.

Lemma reconcile_identity p w : same_identity (reconcile p w) p.
Proof.
  unfold reconcile, same_identity.
  destruct (is_idempotent p w); [done|].
  by destruct (is_out_of_order p w).
Qed.

Lemma reconcile_count p w :
  (webhook_count p ≤ webhook_count (reconcile p w) ≤ S (webhook_count p))%nat.
Proof.
  unfold reconcile.
  destruct (is_idempotent p w); [lia|].
  destruct (is_out_of_order p w); simpl; lia.
Qed.

(** A payment that was just reconciled with [w] is not changed by [w]
    again. *)
Lemma reconcile_twice p w : reconcile (reconcile p w) w = reconcile p w.
Proof.
  destruct (is_idempotent p w) eqn:Hd.
  { unfold reconcile. by rewrite !Hd. }
  destruct (is_out_of_order p w) eqn:Ho.
  { unfold reconcile. by rewrite !Hd, !Ho, Hd. }
  assert (reconcile p w = apply_webhook p w) as ->.
  { unfold reconcile. by rewrite Hd, Ho. }
  assert (is_idempotent (apply_webhook p w) w = true) as Hd'.
  { apply is_idempotent_true. simpl. split; [done | lia]. }
  unfold reconcile. by rewrite Hd'.
Qed.

(** ** Sequences of deliveries *)

Lemma deliver_cons st w ws :
  deliver st (w :: ws) = deliver (receive_webhook st w).1 ws.
Proof. reflexivity. Qed.

Lemma deliver_app st ws1 ws2 :
  deliver st (ws1 ++ ws2) = deliver (deliver st ws1) ws2.
Proof. unfold deliver. apply foldl_app. Qed.

Lemma deliver_cache st ws :
  idempotency_cache (deliver st ws) = idempotency_cache st.
Proof.
  revert st. induction ws as [|w ws IH]; intros st; [done|].
  rewrite deliver_cons, IH. apply receive_webhook_cache.
Qed.

(** Deliveries that all address one payment fold [reconcile] over it. *)
Lemma deliver_reconcile st pid p ws :
  payments st !! pid = Some p →
  Forall (λ w, wh_payment_id w = pid) ws →
  payments (deliver st ws) !! pid = Some (foldl reconcile p ws).
Proof.
  revert st p. induction ws as [|w ws IH]; intros st p Hp Hall; [done|].
  apply Forall_cons in Hall as [Hw Hall]. subst pid.
  rewrite deliver_cons. simpl. apply IH; [|done].
  by apply receive_webhook_reconcile.
Qed.

(** Once the watermark and the status are those of [m], webhooks that
    are strictly older than [m] change nothing: each one is either a
    duplicate or out of order. *)
Lemma reconcile_older_fixed p m ws :
  updated_at p = timestamp m →
  Forall (λ w, timestamp w < timestamp m) ws →
  foldl reconcile p ws = p.
Proof.
  intros Hu. induction ws as [|w ws IH]; intros Hall; [done|].
  apply Forall_cons in Hall as [Hw Hall]. simpl.
  assert (reconcile p w = p) as ->; [|by apply IH].
  unfold reconcile. destruct (is_idempotent p w); [done|].
  assert (is_out_of_order p w = true) as ->; [|done].
  apply is_out_of_order_true. lia.
Qed.

(** Before [m] arrives, older webhooks with another status keep the
    payment in a state where [m] will be applied. *)
Lemma reconcile_before_newest p m ws :
  updated_at p ≤ timestamp m →
  (webhook_count p = 0%nat ∨ status p ≠ wh_status m) →
  Forall (λ w, timestamp w < timestamp m ∧ wh_status w ≠ wh_status m) ws →
  let q := foldl reconcile p ws in
  updated_at q ≤ timestamp m ∧ (webhook_count q = 0%nat ∨ status q ≠ wh_status m).
Proof.
  revert p. induction ws as [|w ws IH]; intros p Hu Hs Hall; [done|].
  apply Forall_cons in Hall as [[Hwt Hws] Hall]. simpl.
  apply IH; [| |done]; unfold reconcile.
  - destruct (is_idempotent p w); [done|].
    destruct (is_out_of_order p w); [done|]. simpl. lia.
  - destruct (is_idempotent p w); [done|].
    destruct (is_out_of_order p w); [done|]. simpl. right. done.
Qed.

(** In that state [m] itself is applied. *)
Lemma reconcile_newest_applied p m :
  updated_at p ≤ timestamp m →
  (webhook_count p = 0%nat ∨ status p ≠ wh_status m) →
  reconcile p m = apply_webhook p m.
Proof.
  intros Hu Hs. unfold reconcile.
  assert (is_idempotent p m = false) as ->.
  { apply is_idempotent_false. intros [??]. destruct Hs; [lia | done]. }
  assert (is_out_of_order p m = false) as ->; [|done].
  by apply is_out_of_order_false.
Qed.

(** The final status of a payment when the newest webhook is the only
    one with its status. *)
Lemma reconcile_newest_wins p m ws1 ws2 :
  updated_at p ≤ timestamp m →
  (webhook_count p = 0%nat ∨ status p ≠ wh_status m) →
  Forall (λ w, timestamp w < timestamp m ∧ wh_status w ≠ wh_status m) (ws1 ++ ws2) →
  status (foldl reconcile p (ws1 ++ m :: ws2)) = wh_status m.
Proof.
  intros Hu Hs Hall. apply Forall_app in Hall as [H1 H2].
  rewrite foldl_app. simpl.
  destruct (reconcile_before_newest p m ws1 Hu Hs H1) as [Hu' Hs'].
  rewrite (reconcile_newest_applied _ _ Hu' Hs').
  rewrite (reconcile_older_fixed _ m); [done|done|].
  eapply Forall_impl; [exact H2|]. by intros w [??].
Qed.

(** ** Payment creation and the invariants of the store *)

Section CreationFacts.

Variable allowed : list string.

Lemma valid_request_true request :
  valid_request allowed request = true ↔
  payment_method request ∈ allowed
  ∧ is_Some (rq_amount request) ∧ is_Some (customer request).
Proof.
  unfold valid_request.
  rewrite !andb_true_iff, !bool_decide_eq_true. tauto.
Qed.

Lemma create_payment_invalid st request key now :
  valid_request allowed request = false →
  create_payment allowed st request key now = (st, inl ValidationError).
Proof. intros H. unfold create_payment. by rewrite H. Qed.

Lemma create_payment_hit st request key now pid p :
  valid_request allowed request = true →
  idempotency_cache st !! key = Some pid →
  payments st !! pid = Some p →
  create_payment allowed st request key now = (st, inr (p, false)).
Proof. intros Hv Hk Hp. unfold create_payment. by rewrite Hv, Hk, Hp. Qed.

Lemma create_payment_miss st request key now :
  valid_request allowed request = true →
  idempotency_cache st !! key = None →
  let pid := fresh (dom (payments st)) in
  let payment := new_payment pid request key now in
  create_payment allowed st request key now =
    ({| payments := <[pid := payment]> (payments st);
        idempotency_cache := <[key := pid]> (idempotency_cache st) |},
     inr (payment, true)).
Proof. intros Hv Hk. unfold create_payment. by rewrite Hv, Hk. Qed.

Lemma fresh_payment_id st : payments st !! fresh (dom (payments st)) = None.
Proof. apply not_elem_of_dom, is_fresh. Qed.

(** Creation changes the store only by adding one payment under an
    unused id and one cache entry under an unused key. *)
Lemma create_payment_store st request key now :
  (create_payment allowed st request key now).1 = st
  ∨ idempotency_cache st !! key = None
    ∧ (create_payment allowed st request key now).1 =
      {| payments := <[fresh (dom (payments st)) :=
                         new_payment (fresh (dom (payments st))) request key now]>
                       (payments st);
         idempotency_cache :=
           <[key := fresh (dom (payments st))]> (idempotency_cache st) |}.
Proof.
  unfold create_payment.
  destruct (valid_request allowed request); [|by left]. simpl.
  destruct (idempotency_cache st !! key) as [pid|] eqn:Hk.
  - left. by destruct (payments st !! pid).
  - right. done.
Qed.

Lemma empty_store_consistent : store_consistent empty_store.
Proof.
  split.
  - intros key pid H. simpl in H. by rewrite lookup_empty in H.
  - intros pid p H. simpl in H. by rewrite lookup_empty in H.
Qed.

Lemma create_payment_consistent st request key now :
  store_consistent st →
  store_consistent (create_payment allowed st request key now).1.
Proof.
  intros [Hc Hp].
  destruct (create_payment_store st request key now) as [->|[Hk ->]]; [done|].
  split; simpl.
  - intros k pid. rewrite lookup_insert. case_decide as Hkey.
    + intros [= <-]. rewrite lookup_insert_eq. by eexists.
    + intros H. destruct (Hc _ _ H) as [q Hq].
      exists q. rewrite lookup_insert_ne; [done|].
      intros Heq. rewrite <- Heq, fresh_payment_id in Hq. done.
  - intros pid p. rewrite lookup_insert. case_decide as Hpid.
    + by intros [= <-].
    + apply Hp.
Qed.

Lemma receive_webhook_consistent st w :
  store_consistent st → store_consistent (receive_webhook st w).1.
Proof.
  intros [Hc Hp]. split.
  - intros key pid. rewrite receive_webhook_cache. intros H.
    destruct (Hc _ _ H) as [q Hq].
    destruct (decide (pid = wh_payment_id w)) as [->|Hne].
    + rewrite (receive_webhook_reconcile _ _ _ Hq). by eexists.
    + rewrite receive_webhook_other; [by eexists | done].
  - intros pid p.
    destruct (decide (pid = wh_payment_id w)) as [->|Hne].
    + destruct (payments st !! wh_payment_id w) as [q|] eqn:Hq.
      * rewrite (receive_webhook_reconcile _ _ _ Hq). intros [= <-].
        destruct (reconcile_identity q w) as [-> _]. by apply Hp.
      * rewrite (receive_webhook_unknown _ _ Hq). simpl. by rewrite Hq.
    + rewrite receive_webhook_other; [apply Hp | done].
Qed.

Lemma handle_consistent st rq :
  store_consistent st → store_consistent (handle allowed st rq).
Proof.
  destruct rq; simpl.
  - apply create_payment_consistent.
  - apply receive_webhook_consistent.
Qed.

Lemma run_consistent st rqs :
  store_consistent st → store_consistent (run allowed st rqs).
Proof.
  revert st. induction rqs as [|rq rqs IH]; intros st H; [done|].
  simpl. apply IH. by apply handle_consistent.
Qed.

(** Every store the API can reach from the empty one is consistent. *)
Lemma reachable_consistent rqs : store_consistent (run allowed empty_store rqs).
Proof. apply run_consistent, empty_store_consistent. Qed.

(** A cache entry, once present, survives every request unchanged. *)
Lemma handle_cache st rq key pid :
  idempotency_cache st !! key = Some pid →
  idempotency_cache (handle allowed st rq) !! key = Some pid.
Proof.
  intros H. destruct rq as [request k now|w]; simpl.
  - destruct (create_payment_store st request k now) as [->|[Hk ->]]; [done|].
    simpl. rewrite lookup_insert_ne; [done|]. intros ->. congruence.
  - by rewrite receive_webhook_cache.
Qed.

Lemma run_cache st rqs key pid :
  idempotency_cache st !! key = Some pid →
  idempotency_cache (run allowed st rqs) !! key = Some pid.
Proof.
  revert st. induction rqs as [|rq rqs IH]; intros st H; [done|].
  simpl. apply IH. by apply handle_cache.
Qed.

(** A stored payment survives every request; its identity is kept and
    its watermark does not go back. *)
Lemma handle_payment st rq pid p :
  payments st !! pid = Some p →
  ∃ p', payments (handle allowed st rq) !! pid = Some p'
        ∧ same_identity p' p ∧ updated_at p ≤ updated_at p'.
Proof.
  intros H. destruct rq as [request k now|w]; simpl.
  - exists p. split; [|split; [done | lia]].
    destruct (create_payment_store st request k now) as [->|[Hk ->]]; [done|].
    simpl. rewrite lookup_insert_ne; [done|].
    intros Heq. rewrite <- Heq, fresh_payment_id in H. done.
  - destruct (decide (pid = wh_payment_id w)) as [->|Hne].
    + exists (reconcile p w). split; [by apply receive_webhook_reconcile|].
      split; [apply reconcile_identity | apply reconcile_updated_at].
    + exists p. rewrite receive_webhook_other; [|done].
      split; [done|]. split; [done | lia].
Qed.

Lemma run_payment st rqs pid p :
  payments st !! pid = Some p →
  ∃ p', payments (run allowed st rqs) !! pid = Some p'
        ∧ same_identity p' p ∧ updated_at p ≤ updated_at p'.
Proof.
  revert st p. induction rqs as [|rq rqs IH]; intros st p H.
  { exists p. split; [done|]. split; [done | lia]. }
  destruct (handle_payment st rq pid p H) as (p1 & H1 & Hid1 & Hu1).
  destruct (IH _ _ H1) as (p2 & H2 & Hid2 & Hu2).
  exists p2. split; [done|]. split; [|lia].
  unfold same_identity in *. intuition congruence.
Qed.

End CreationFacts.

(** ** Order of delivery *)

Lemma deliver_run allowed st ws :
  deliver st ws = run allowed st (PostWebhook <$> ws).
Proof.
  revert st. induction ws as [|w ws IH]; intros st; [done|].
  simpl. apply IH.
Qed.

(** In a list without two equal timestamps, every element other than
    [m] has a timestamp other than that of [m]. *)
Lemma distinct_timestamps_split (ws1 ws2 : list WebhookPayload) m :
  NoDup (timestamp <$> (ws1 ++ m :: ws2)) →
  Forall (λ w, timestamp w ≠ timestamp m ∧ w ≠ m) (ws1 ++ ws2).
Proof.
  rewrite fmap_app, fmap_cons, NoDup_app, NoDup_cons.
  intros (_ & H1 & H2 & _). apply Forall_forall. intros w Hw.
  assert (timestamp w ≠ timestamp m) as Hne.
  { apply elem_of_app in Hw as [Hw|Hw].
    - intros Heq. apply (H1 (timestamp w)); [by apply list_elem_of_fmap_2|].
      rewrite Heq. apply elem_of_cons. by left.
    - intros Heq. apply H2. rewrite <- Heq. by apply list_elem_of_fmap_2. }
  split; [done|]. by intros ->.
Qed.

(** A sufficient condition for the order of delivery not to matter:
    for one payment and a set of notifications with pairwise distinct
    timestamps, where the newest notification [m] is not older than the
    payment's updated_at, no other notification carries the status of
    [m], and the payment has either counted no webhook yet or a status
    other than that of [m], delivering the notifications in any order
    ends with the status of [m].  Under these conditions the duplicate
    guard never meets [m]. *)
Theorem newest_notification_wins st pid p (ws ws' : list WebhookPayload) m :
  payments st !! pid = Some p →
  (∀ w, w ∈ ws → wh_payment_id w = pid) →
  NoDup (timestamp <$> ws) →
  m ∈ ws →
  (∀ w, w ∈ ws → timestamp w ≤ timestamp m) →
  (∀ w, w ∈ ws → w ≠ m → wh_status w ≠ wh_status m) →
  updated_at p ≤ timestamp m →
  (webhook_count p = 0%nat ∨ status p ≠ wh_status m) →
  ws' ≡ₚ ws →
  status_of (deliver st ws') pid = Some (wh_status m).
Proof.
  intros Hp Hpid Hnd Hm Hmax Hst Hu Hc Hperm.
  assert (∀ w, w ∈ ws' → w ∈ ws) as Hin.
  { intros w. by rewrite Hperm. }
  assert (NoDup (timestamp <$> ws')) as Hnd' by (by rewrite Hperm).
  assert (m ∈ ws') as Hm' by (by rewrite Hperm).
  apply list_elem_of_split in Hm' as (ws1 & ws2 & ->).
  unfold status_of.
  rewrite (deliver_reconcile st pid p); [|done|].
  2: { apply Forall_forall. intros w Hw. apply Hpid, Hin, Hw. }
  simpl. f_equal. apply reconcile_newest_wins; [done|done|].
  pose proof (distinct_timestamps_split _ _ _ Hnd') as Hd.
  rewrite Forall_forall in Hd. apply Forall_forall. intros w Hw.
  destruct (Hd w Hw) as [Hts Hne].
  assert (w ∈ ws) as Hws.
  { apply Hin. apply elem_of_app in Hw as [?|?]; apply elem_of_app;
      [by left | right; apply elem_of_cons; by right]. }
  split; [|by apply Hst].
  specialize (Hmax w Hws). lia.
Qed.

Lemma newest_notification_wins_witness :
  status_of
    (deliver demo_store
       [webhook_for "0" expired 130; webhook_for "0" approved 110;
        webhook_for "0" declined 120]) "0" = Some expired.
Proof.
  apply (newest_notification_wins demo_store "0" demo_payment
           [webhook_for "0" approved 110; webhook_for "0" declined 120;
            webhook_for "0" expired 130]
           _ (webhook_for "0" expired 130)).
  - vm_compute. reflexivity.
  - apply (proj1 (Forall_forall (λ w, wh_payment_id w = "0"%string) _)).
    apply (bool_decide_unpack _). vm_compute. reflexivity.
  - apply (bool_decide_unpack _). vm_compute. reflexivity.
  - apply (bool_decide_unpack _). vm_compute. reflexivity.
  - apply (proj1 (Forall_forall (λ w, timestamp w ≤ 130) _)).
    apply (bool_decide_unpack _). vm_compute. reflexivity.
  - apply (proj1 (Forall_forall
                    (λ w, w ≠ webhook_for "0" expired 130 → wh_status w ≠ expired) _)).
    apply (bool_decide_unpack _). vm_compute. reflexivity.
  - simpl. lia.
  - left. reflexivity.
  - apply (bool_decide_unpack _). vm_compute. reflexivity.
Defined.

(** C1 (the code at the failing input).  The payment "0" is created at
    time 100 (pending, updated_at = 100, webhook_count = 0).  The three
    notifications approved@105, approved@115, declined@110 have pairwise
    distinct timestamps, none older than the payment's updated_at, and
    the newest one, approved@115, says approved.  Delivered in the order
    approved@105, approved@115, declined@110: the first is applied; the
    second is answered duplicate by the status guard and updated_at stays
    105; the third, older than the second, is then not older than
    updated_at, is applied, and the payment ends declined.  Delivered in
    the order approved@115, declined@110, approved@105 the payment ends
    approved.  The final status depends on the order of delivery and, in
    the first order, is not the status of the newest notification. *)
Theorem newer_notification_reverted :
  payments demo_store !! "0"%string = Some demo_payment
  ∧ updated_at demo_payment = 100 ∧ webhook_count demo_payment = 0%nat
  ∧ NoDup (timestamp <$> [webhook_for "0" approved 105; webhook_for "0" approved 115;
                          webhook_for "0" declined 110])
  ∧ Forall (λ w, updated_at demo_payment ≤ timestamp w ≤ 115)
      [webhook_for "0" approved 105; webhook_for "0" approved 115;
       webhook_for "0" declined 110]
  ∧ (receive_webhook demo_store (webhook_for "0" approved 105)).2 = inr res_applied
  ∧ (receive_webhook (deliver demo_store [webhook_for "0" approved 105])
       (webhook_for "0" approved 115)).2 = inr res_idempotent
  ∧ updated_at <$>
      payments (deliver demo_store
                  [webhook_for "0" approved 105; webhook_for "0" approved 115])
        !! "0"%string = Some 105
  ∧ (receive_webhook
       (deliver demo_store
          [webhook_for "0" approved 105; webhook_for "0" approved 115])
       (webhook_for "0" declined 110)).2 = inr res_applied
  ∧ status_of (deliver demo_store
                 [webhook_for "0" approved 105; webhook_for "0" approved 115;
                  webhook_for "0" declined 110]) "0" = Some declined
  ∧ [webhook_for "0" approved 115; webhook_for "0" declined 110;
     webhook_for "0" approved 105]
    ≡ₚ [webhook_for "0" approved 105; webhook_for "0" approved 115;
        webhook_for "0" declined 110]
  ∧ status_of (deliver demo_store
                 [webhook_for "0" approved 115; webhook_for "0" declined 110;
                  webhook_for "0" approved 105]) "0" = Some approved.
Proof.
  split; [vm_compute; reflexivity|].
  split; [reflexivity|]. split; [reflexivity|].
  split; [apply (bool_decide_unpack _); vm_compute; reflexivity|].
  split; [apply (bool_decide_unpack _); vm_compute; reflexivity|].
  split; [vm_compute; reflexivity|].
  split; [vm_compute; reflexivity|].
  split; [vm_compute; reflexivity|].
  split; [vm_compute; reflexivity|].
  split; [vm_compute; reflexivity|].
  split; [apply (bool_decide_unpack _); vm_compute; reflexivity|].
  vm_compute. reflexivity.
Qed.

(** ** The watermark rule *)




(** ** Repeated delivery *)

(** A second delivery of the same notification never changes the
    store. *)
Lemma receive_webhook_again st w :
  (receive_webhook (receive_webhook st w).1 w).1 = (receive_webhook st w).1.
Proof.
  destruct (payments st !! wh_payment_id w) as [p|] eqn:Hp.
  - destruct (is_idempotent p w) eqn:Hd.
    { rewrite (receive_webhook_idempotent _ _ _ Hp Hd). simpl.
      by rewrite (receive_webhook_idempotent _ _ _ Hp Hd). }
    destruct (is_out_of_order p w) eqn:Ho.
    { rewrite (receive_webhook_out_of_order _ _ _ Hp Hd Ho). simpl.
      by rewrite (receive_webhook_out_of_order _ _ _ Hp Hd Ho). }
    rewrite (receive_webhook_applied _ _ _ Hp Hd Ho). simpl.
    erewrite receive_webhook_idempotent; [done| |].
    + simpl. apply lookup_insert_eq.
    + apply is_idempotent_true. simpl. split; [done | lia].
  - rewrite (receive_webhook_unknown _ _ Hp). simpl.
    by rewrite (receive_webhook_unknown _ _ Hp).
Qed.

Lemma deliver_replicate st w n :
  deliver st (replicate (S n) w) = (receive_webhook st w).1.
Proof.
  induction n as [|n IH]; [done|].
  rewrite replicate_S_end, deliver_app, IH. simpl.
  apply receive_webhook_again.
Qed.

(** C3 (as amended): when the identical notification is delivered
    N >= 1 times to an existing payment, the store after the N deliveries
    is the store after the first one: every delivery after the first
    performs no mutation, so the status changes at most once and
    webhook_count grows by at most 1.  When the first delivery is
    applied, every later delivery is answered duplicate and webhook_count
    has grown by exactly 1. *)
Theorem duplicate_suppression st w p n :
  payments st !! wh_payment_id w = Some p →
  deliver st (replicate (S n) w) = (receive_webhook st w).1
  ∧ (∃ p1, payments (deliver st (replicate (S n) w)) !! wh_payment_id w = Some p1
           ∧ (webhook_count p ≤ webhook_count p1 ≤ S (webhook_count p))%nat)
  ∧ ((receive_webhook st w).2 = inr res_applied →
     receive_webhook (deliver st (replicate (S n) w)) w
     = (deliver st (replicate (S n) w), inr res_idempotent)
     ∧ ∃ p1, payments (deliver st (replicate (S n) w)) !! wh_payment_id w = Some p1
             ∧ status p1 = wh_status w
             ∧ webhook_count p1 = S (webhook_count p)).
Proof.
  intros Hp. rewrite deliver_replicate.
  split; [done|]. split.
  - exists (reconcile p w).
    split; [by apply receive_webhook_reconcile | apply reconcile_count].
  - destruct (is_idempotent p w) eqn:Hd.
    { by rewrite (receive_webhook_idempotent _ _ _ Hp Hd). }
    destruct (is_out_of_order p w) eqn:Ho.
    { by rewrite (receive_webhook_out_of_order _ _ _ Hp Hd Ho). }
    rewrite (receive_webhook_applied _ _ _ Hp Hd Ho). simpl. intros _.
    split.
    + erewrite receive_webhook_idempotent; [done| |].
      * simpl. apply lookup_insert_eq.
      * apply is_idempotent_true. simpl. split; [done | lia].
    + exists (apply_webhook p w). by rewrite lookup_insert_eq.
Qed.

Lemma duplicate_suppression_witness :
  deliver demo_store (replicate 3 (webhook_for "0" approved 110)) = approved_store
  ∧ receive_webhook approved_store (webhook_for "0" approved 110)
    = (approved_store, inr res_idempotent).
Proof.
  destruct (duplicate_suppression demo_store (webhook_for "0" approved 110)
              demo_payment 2) as (Hst & _ & Hdup).
  - vm_compute. reflexivity.
  - split; [exact Hst|].
    destruct Hdup as [Hdup _]; [vm_compute; reflexivity|].
    rewrite Hst in Hdup. exact Hdup.
Defined.

(** C3 (counterexample).  The payment "0" is approved with
    updated_at = 110 and webhook_count = 1.  The notification expired@105
    is delivered twice: the second delivery is answered out_of_order, not
    duplicate, and webhook_count is still 1 after both deliveries. *)
Lemma stale_repeat_not_duplicate :
  payments approved_store !! "0"%string = Some approved_payment
  ∧ webhook_count approved_payment = 1%nat
  ∧ receive_webhook (receive_webhook approved_store (webhook_for "0" expired 105)).1
      (webhook_for "0" expired 105)
    = (approved_store, inr res_out_of_order)
  ∧ webhook_count <$>
      payments (deliver approved_store (replicate 2 (webhook_for "0" expired 105)))
        !! "0"%string
    = Some 1%nat.
Proof.
  assert (receive_webhook approved_store (webhook_for "0" expired 105)
          = (approved_store, inr res_out_of_order)) as H1.
  { apply (receive_webhook_out_of_order _ _ approved_payment);
      vm_compute; reflexivity. }
  split; [vm_compute; reflexivity|]. split; [reflexivity|].
  split.
  - rewrite H1. simpl. exact H1.
  - vm_compute. reflexivity.
Qed.

(** ** Creation *)

(** C4: on a consistent store, for every valid request R and key K the
    call Create(R, K) returns a payment that is stored under its own id
    and reached from K in the idempotency cache.  It is new (isNew =
    true) exactly when K was not in the cache, and then it is the
    pending record made from R at that time under an id that was not in
    use; otherwise it is the record already stored and the store is
    unchanged.  A second call Create(R, K), at any later time, returns
    that same stored record (hence the same payment_id) with isNew =
    false and leaves the store exactly as the first call left it: no
    second payment is allocated and nothing is mutated. *)
Theorem create_payment_idempotent allowed st request key now now' :
  store_consistent st →
  valid_request allowed request = true →
  ∃ p isNew st1,
    create_payment allowed st request key now = (st1, inr (p, isNew))
    ∧ payments st1 !! payment_id p = Some p
    ∧ idempotency_cache st1 !! key = Some (payment_id p)
    ∧ (isNew = true ↔ idempotency_cache st !! key = None)
    ∧ (isNew = true →
       payments st !! payment_id p = None
       ∧ p = new_payment (payment_id p) request key now
       ∧ size (payments st1) = S (size (payments st)))
    ∧ (isNew = false → st1 = st ∧ payments st !! payment_id p = Some p)
    ∧ create_payment allowed st1 request key now' = (st1, inr (p, false))
    ∧ size (payments (create_payment allowed st1 request key now').1)
      = size (payments st1).
Proof.
  intros [Hc Hid] Hv.
  destruct (idempotency_cache st !! key) as [pid|] eqn:Hk.
  - destruct (Hc _ _ Hk) as [p Hp]. exists p, false, st.
    pose proof (Hid _ _ Hp) as Hpid.
    assert (create_payment allowed st request key now' = (st, inr (p, false))) as Hhit.
    { by apply (create_payment_hit allowed st _ _ _ pid). }
    split; [by apply (create_payment_hit allowed st _ _ _ pid)|].
    split; [by rewrite Hpid|]. split; [by rewrite Hpid|].
    split; [done|]. split; [done|].
    split; [by rewrite Hpid|]. split; [done|]. by rewrite Hhit.
  - pose proof (fresh_payment_id st) as Hfresh.
    set (pid := fresh (dom (payments st))) in *.
    set (st1 := {| payments := <[pid := new_payment pid request key now]> (payments st);
                   idempotency_cache := <[key := pid]> (idempotency_cache st) |}).
    assert (create_payment allowed st1 request key now'
            = (st1, inr (new_payment pid request key now, false))) as Hhit.
    { apply (create_payment_hit allowed _ _ _ _ pid);
        [done| |]; simpl; apply lookup_insert_eq. }
    exists (new_payment pid request key now), true, st1.
    split; [by apply create_payment_miss|].
    split; [simpl; apply lookup_insert_eq|].
    split; [simpl; apply lookup_insert_eq|].
    split; [done|].
    split.
    { intros _. split; [done|]. split; [done|].
      simpl. by apply map_size_insert_None. }
    split; [done|]. split; [done|]. by rewrite Hhit.
Qed.

Lemma create_payment_idempotent_witness :
  ∃ p isNew st1,
    create_payment demo_methods empty_store demo_request "k1" 100
    = (st1, inr (p, isNew))
    ∧ payments st1 !! payment_id p = Some p
    ∧ idempotency_cache st1 !! "k1"%string = Some (payment_id p)
    ∧ (isNew = true ↔ idempotency_cache empty_store !! "k1"%string = None)
    ∧ (isNew = true →
       payments empty_store !! payment_id p = None
       ∧ p = new_payment (payment_id p) demo_request "k1" 100
       ∧ size (payments st1) = S (size (payments empty_store)))
    ∧ (isNew = false → st1 = empty_store ∧ payments empty_store !! payment_id p = Some p)
    ∧ create_payment demo_methods st1 demo_request "k1" 200 = (st1, inr (p, false))
    ∧ size (payments (create_payment demo_methods st1 demo_request "k1" 200).1)
      = size (payments st1).
Proof.
  apply (create_payment_idempotent demo_methods empty_store demo_request "k1" 100 200).
  - apply empty_store_consistent.
  - vm_compute. reflexivity.
Defined.

(** C8: a creation request whose payment_method is not in the allowed
    set, or that lacks the amount or the customer, fails with
    ValidationError and leaves the store unchanged: no payment is
    created and no idempotency entry is inserted. *)
Theorem invalid_request_rejected allowed st request key now :
  payment_method request ∉ allowed
  ∨ rq_amount request = None ∨ customer request = None →
  create_payment allowed st request key now = (st, inl ValidationError)
  ∧ payments (create_payment allowed st request key now).1 = payments st
  ∧ idempotency_cache (create_payment allowed st request key now).1
    = idempotency_cache st.
Proof.
  intros H.
  assert (valid_request allowed request = false) as Hv.
  { destruct (valid_request allowed request) eqn:Hv; [|done].
    apply valid_request_true in Hv as (Hm & [a Ha] & [c Hc]).
    destruct H as [H|[H|H]]; [done | congruence | congruence]. }
  by rewrite (create_payment_invalid allowed st request key now Hv).
Qed.

Lemma invalid_request_rejected_witness :
  create_payment demo_methods demo_store
    (mkRequest (Some "50000"%string) "COP" "INVALID" "banco_azul"
       (customer demo_request) "http://localhost:3000/return") "k2" 200
  = (demo_store, inl ValidationError).
Proof.
  apply (invalid_request_rejected demo_methods demo_store).
  left. simpl. apply (bool_decide_unpack _). vm_compute. reflexivity.
Defined.

(** C10: a key that is in the idempotency cache stays mapped to the same
    payment id through every sequence of later requests (creations with
    any key at any time, webhooks for any payment), and every later
    valid creation with that key, whatever its time, returns the payment
    stored under that id, which is the original one (same id, key and
    creation time), with isNew = false and without changing the store. *)
Theorem idempotency_mapping_never_expires allowed st key pid rqs :
  store_consistent st →
  idempotency_cache st !! key = Some pid →
  idempotency_cache (run allowed st rqs) !! key = Some pid
  ∧ ∃ p0, payments st !! pid = Some p0
    ∧ ∀ request now,
        valid_request allowed request = true →
        ∃ p, create_payment allowed (run allowed st rqs) request key now
             = (run allowed st rqs, inr (p, false))
             ∧ payment_id p = pid ∧ same_identity p p0.
Proof.
  intros Hst Hk. split; [by apply run_cache|].
  destruct Hst as [Hc Hid]. destruct (Hc _ _ Hk) as [p0 Hp0].
  exists p0. split; [done|]. intros request now Hv.
  destruct (run_payment allowed st rqs pid p0 Hp0) as (p & Hp & Hsame & _).
  exists p. split; [|split; [|done]].
  - apply (create_payment_hit allowed _ _ _ _ pid); [done| |done].
    by apply run_cache.
  - destruct Hsame as [-> _]. by apply Hid.
Qed.

Lemma idempotency_mapping_never_expires_witness :
  idempotency_cache
    (run demo_methods demo_store
       [PostWebhook (webhook_for "0" approved 110);
        PostPayment demo_request "k2" 5000]) !! "k1"%string = Some "0"%string
  ∧ ∃ p, create_payment demo_methods
           (run demo_methods demo_store
              [PostWebhook (webhook_for "0" approved 110);
               PostPayment demo_request "k2" 5000]) demo_request "k1" 999999
         = (run demo_methods demo_store
              [PostWebhook (webhook_for "0" approved 110);
               PostPayment demo_request "k2" 5000], inr (p, false))
         ∧ payment_id p = "0"%string.
Proof.
  destruct (idempotency_mapping_never_expires demo_methods demo_store "k1" "0"
              [PostWebhook (webhook_for "0" approved 110);
               PostPayment demo_request "k2" 5000])
    as (Hkey & p0 & _ & Hcreate).
  - apply (create_payment_consistent demo_methods), empty_store_consistent.
  - vm_compute. reflexivity.
  - split; [exact Hkey|].
    destruct (Hcreate demo_request 999999) as (p & Hp & Hid & _);
      [vm_compute; reflexivity|].
    exists p. split; [exact Hp | exact Hid].
Defined.

(** ** The watermark over time *)

(** C5: over any sequence of webhook deliveries, addressed to any
    payments and in any order, whether applied, out of order or
    duplicate, an existing payment stays in the store and its updated_at
    never decreases: it is either unchanged or strictly greater. *)
Theorem watermark_monotone st (ws : list WebhookPayload) pid p :
  payments st !! pid = Some p →
  ∃ p', payments (deliver st ws) !! pid = Some p'
        ∧ (updated_at p' = updated_at p ∨ updated_at p < updated_at p').
Proof.
  intros Hp. rewrite (deliver_run []).
  destruct (run_payment [] st (PostWebhook <$> ws) pid p Hp) as (p' & Hp' & _ & Hu).
  exists p'. split; [done | lia].
Qed.

Lemma watermark_monotone_witness :
  ∃ p', payments (deliver demo_store
                    [webhook_for "0" approved 110; webhook_for "0" expired 105;
                     webhook_for "0" approved 120; webhook_for "1" declined 130])
          !! "0"%string = Some p'
        ∧ (updated_at p' = updated_at demo_payment
           ∨ updated_at demo_payment < updated_at p').
Proof.
  apply (watermark_monotone demo_store). vm_compute. reflexivity.
Defined.

(** ** Terminal states *)

(** C6: when the payment's status is terminal (approved, declined or
    expired), a notification with a timestamp strictly greater than
    updated_at and a status other than the current one is applied and
    the payment takes the notification's status. *)
Theorem terminal_status_overridden st w p :
  payments st !! wh_payment_id w = Some p →
  terminal (status p) = true →
  updated_at p < timestamp w →
  wh_status w ≠ status p →
  (receive_webhook st w).2 = inr res_applied
  ∧ status_of (receive_webhook st w).1 (wh_payment_id w) = Some (wh_status w).
Proof.
  intros Hp _ Hu Hs.
  assert (is_idempotent p w = false) as Hd.
  { apply is_idempotent_false. by intros [? _]. }
  assert (is_out_of_order p w = false) as Ho.
  { apply is_out_of_order_false. lia. }
  rewrite (receive_webhook_applied _ _ _ Hp Hd Ho). simpl.
  split; [done|]. unfold status_of. simpl. by rewrite lookup_insert_eq.
Qed.

Lemma terminal_status_overridden_witness :
  (receive_webhook approved_store (webhook_for "0" declined 120)).2 = inr res_applied
  ∧ status_of (receive_webhook approved_store (webhook_for "0" declined 120)).1 "0"
    = Some declined.
Proof.
  apply (terminal_status_overridden approved_store (webhook_for "0" declined 120)
           approved_payment).
  - vm_compute. reflexivity.
  - reflexivity.
  - simpl. lia.
  - simpl. discriminate.
Defined.

(** ** Unknown payments *)

(** C7: a notification whose payment_id has no payment in the store is
    answered NotFound; the store is returned as it was, so no placeholder
    payment exists afterwards (a lookup of that id is still NotFound) and
    every payment and the idempotency cache are unchanged. *)
Theorem unknown_payment_not_found st w :
  payments st !! wh_payment_id w = None →
  receive_webhook st w = (st, inl NotFound)
  ∧ get_payment (receive_webhook st w).1 (wh_payment_id w) = inl NotFound
  ∧ payments (receive_webhook st w).1 = payments st
  ∧ idempotency_cache (receive_webhook st w).1 = idempotency_cache st.
Proof.
  intros H. unfold receive_webhook, get_payment. rewrite H. simpl.
  by rewrite H.
Qed.

Lemma unknown_payment_not_found_witness :
  receive_webhook demo_store (webhook_for "7" approved 110)
  = (demo_store, inl NotFound).
Proof.
  apply (unknown_payment_not_found demo_store (webhook_for "7" approved 110)).
  vm_compute. reflexivity.
Defined.

(** ** Status duplicates *)

(** C9: on a payment that has counted at least one webhook, a
    notification carrying the payment's current status is answered
    duplicate and the store is unchanged, whatever its timestamp; in
    particular when the timestamp is strictly greater than updated_at the
    stored payment, and with it updated_at, stays as it was. *)
Theorem same_status_is_duplicate st w p :
  payments st !! wh_payment_id w = Some p →
  (0 < webhook_count p)%nat →
  wh_status w = status p →
  receive_webhook st w = (st, inr res_idempotent)
  ∧ (updated_at p < timestamp w →
     updated_at <$> payments (receive_webhook st w).1 !! wh_payment_id w
     = Some (updated_at p)).
Proof.
  intros Hp Hc Hs.
  assert (is_idempotent p w = true) as Hd.
  { apply is_idempotent_true. done. }
  unfold receive_webhook. rewrite Hp, Hd. simpl.
  split; [done|]. intros _. by rewrite Hp.
Qed.

Lemma same_status_is_duplicate_witness :
  receive_webhook approved_store (webhook_for "0" approved 500)
  = (approved_store, inr res_idempotent)
  ∧ (updated_at approved_payment < 500 →
     updated_at <$>
       payments (receive_webhook approved_store (webhook_for "0" approved 500)).1
         !! "0"%string
     = Some 110).
Proof.
  apply (same_status_is_duplicate approved_store (webhook_for "0" approved 500)
           approved_payment).
  - vm_compute. reflexivity.
  - simpl. lia.
  - reflexivity.
Defined.

(** * Further properties of the handlers *)

(** ** Isolation of payments *)

Lemma receive_webhook_agree st1 st2 w :
  payments st1 !! wh_payment_id w = payments st2 !! wh_payment_id w →
  payments (receive_webhook st1 w).1 !! wh_payment_id w
  = payments (receive_webhook st2 w).1 !! wh_payment_id w.
Proof.
  intros H. destruct (payments st1 !! wh_payment_id w) as [p|] eqn:H1.
  - rewrite (receive_webhook_reconcile _ _ _ H1).
    symmetry in H. by rewrite (receive_webhook_reconcile _ _ _ H).
  - rewrite (receive_webhook_unknown _ _ H1).
    symmetry in H. rewrite (receive_webhook_unknown _ _ H). simpl. congruence.
Qed.

Lemma deliver_filter_agree pid ws : ∀ st1 st2,
  payments st1 !! pid = payments st2 !! pid →
  payments (deliver st1 ws) !! pid
  = payments (deliver st2 (filter (λ w, wh_payment_id w = pid) ws)) !! pid.
Proof.
  induction ws as [|w ws IH]; intros st1 st2 H; [done|].
  rewrite deliver_cons.
  destruct (decide (wh_payment_id w = pid)) as [Hw|Hw].
  - rewrite filter_cons_True by done. rewrite deliver_cons.
    apply IH. subst pid. by apply receive_webhook_agree.
  - rewrite filter_cons_False by done.
    apply IH. rewrite receive_webhook_other; [done | congruence].
Qed.

(** X1: what a delivery sequence does to one payment depends only on
    the deliveries addressed to it; webhooks for other payments,
    wherever they are interleaved, make no difference. *)
Theorem deliver_isolated st pid (ws : list WebhookPayload) :
  payments (deliver st ws) !! pid
  = payments (deliver st (filter (λ w, wh_payment_id w = pid) ws)) !! pid.
Proof. by apply deliver_filter_agree. Qed.

(** ** The webhook counter *)

(** X2: after any delivery sequence the webhook_count of a payment is
    its former count plus the number of deliveries addressed to it that
    were answered applied; duplicates, out-of-order deliveries and
    deliveries for other or unknown payments do not count. *)
Theorem webhook_count_tracks_applied st (ws : list WebhookPayload) pid p :
  payments st !! pid = Some p →
  ∃ p', payments (deliver st ws) !! pid = Some p'
        ∧ webhook_count p' = (webhook_count p + applied_to pid st ws)%nat.
Proof.
  revert st p. induction ws as [|w ws IH]; intros st p Hp.
  { exists p. split; [done|]. simpl. lia. }
  rewrite deliver_cons. simpl applied_to.
  destruct (decide (wh_payment_id w = pid)) as [Hw|Hw].
  - subst pid. rewrite bool_decide_eq_true_2 by done. simpl andb.
    destruct (IH (receive_webhook st w).1 (reconcile p w)) as (p' & Hp' & Hc).
    { by apply receive_webhook_reconcile. }
    exists p'. split; [done|]. rewrite Hc. unfold reconcile.
    destruct (is_idempotent p w) eqn:Hd.
    { rewrite (receive_webhook_idempotent _ _ _ Hp Hd). simpl. lia. }
    destruct (is_out_of_order p w) eqn:Ho.
    { rewrite (receive_webhook_out_of_order _ _ _ Hp Hd Ho). simpl. lia. }
    rewrite (receive_webhook_applied _ _ _ Hp Hd Ho). simpl. lia.
  - rewrite bool_decide_eq_false_2 by done. simpl andb.
    destruct (IH (receive_webhook st w).1 p) as (p' & Hp' & Hc).
    { rewrite receive_webhook_other; [done | congruence]. }
    exists p'. split; [done|]. rewrite Hc. lia.
Qed.

Lemma webhook_count_tracks_applied_witness :
  ∃ p', payments
          (deliver demo_store
             [webhook_for "0" approved 110; webhook_for "0" approved 120;
              webhook_for "7" declined 125; webhook_for "0" expired 105;
              webhook_for "0" declined 130]) !! "0"%string = Some p'
        ∧ webhook_count p' = 2%nat.
Proof.
  apply (webhook_count_tracks_applied demo_store
           [webhook_for "0" approved 110; webhook_for "0" approved 120;
            webhook_for "7" declined 125; webhook_for "0" expired 105;
            webhook_for "0" declined 130] "0" demo_payment).
  vm_compute. reflexivity.
Defined.

(** ** Webhooks never allocate *)

Lemma receive_webhook_dom st w :
  dom (payments (receive_webhook st w).1) = dom (payments st).
Proof.
  unfold receive_webhook.
  destruct (payments st !! wh_payment_id w) as [p|] eqn:Hp; [|done].
  destruct (is_idempotent p w); [done|].
  destruct (is_out_of_order p w); [done|].
  simpl. apply dom_insert_lookup_L. by eexists.
Qed.

(** X3: a delivery sequence never creates or removes a payment and
    never touches the idempotency cache: the set of payment ids and the
    cache are the same before and after, whatever the webhooks say. *)
Theorem deliver_never_allocates st (ws : list WebhookPayload) :
  dom (payments (deliver st ws)) = dom (payments st)
  ∧ idempotency_cache (deliver st ws) = idempotency_cache st.
Proof.
  split; [|apply deliver_cache].
  revert st. induction ws as [|w ws IH]; intros st; [done|].
  rewrite deliver_cons, IH. apply receive_webhook_dom.
Qed.

(** ** Stale webhooks *)

(** X5: once a webhook has been applied, any later deliveries for the
    same payment that carry strictly older timestamps leave the store
    exactly as it is, whatever their statuses and their order: a stale
    notification cannot revert the payment. *)
Theorem stale_webhooks_ignored st w (ws : list WebhookPayload) :
  (receive_webhook st w).2 = inr res_applied →
  Forall (λ w', wh_payment_id w' = wh_payment_id w ∧ timestamp w' < timestamp w) ws →
  deliver (receive_webhook st w).1 ws = (receive_webhook st w).1
  ∧ applied_to (wh_payment_id w) (receive_webhook st w).1 ws = 0%nat.
Proof.
  intros Happ Hall.
  assert (∃ q, payments (receive_webhook st w).1 !! wh_payment_id w = Some q
               ∧ updated_at q = timestamp w) as (q & Hq & Hu).
  { destruct (payments st !! wh_payment_id w) as [p|] eqn:Hp.
    - exists (apply_webhook p w). split; [|done].
      destruct (is_idempotent p w) eqn:Hd.
      { by rewrite (receive_webhook_idempotent _ _ _ Hp Hd) in Happ. }
      destruct (is_out_of_order p w) eqn:Ho.
      { by rewrite (receive_webhook_out_of_order _ _ _ Hp Hd Ho) in Happ. }
      rewrite (receive_webhook_applied _ _ _ Hp Hd Ho). simpl.
      apply lookup_insert_eq.
    - by rewrite (receive_webhook_unknown _ _ Hp) in Happ. }
  induction ws as [|w' ws IH]; [done|].
  apply Forall_cons in Hall as [[Hid Hts] Hall].
  rewrite deliver_cons. simpl applied_to.
  assert (receive_webhook (receive_webhook st w).1 w'
          = ((receive_webhook st w).1, inr res_idempotent)
          ∨ receive_webhook (receive_webhook st w).1 w'
            = ((receive_webhook st w).1, inr res_out_of_order)) as Hres.
  { rewrite <- Hid in Hq.
    destruct (is_idempotent q w') eqn:Hd.
    - left. by apply (receive_webhook_idempotent _ _ q).
    - right. apply (receive_webhook_out_of_order _ _ q); [done|done|].
      apply is_out_of_order_true. lia. }
  destruct Hres as [-> | ->]; simpl; rewrite andb_false_r; by apply IH.
Qed.

Lemma stale_webhooks_ignored_witness :
  deliver approved_store
    [webhook_for "0" expired 105; webhook_for "0" declined 109;
     webhook_for "0" approved 101]
  = approved_store.
Proof.
  apply (stale_webhooks_ignored demo_store (webhook_for "0" approved 110)
           [webhook_for "0" expired 105; webhook_for "0" declined 109;
            webhook_for "0" approved 101]).
  - vm_compute. reflexivity.
  - apply (bool_decide_unpack _). vm_compute. reflexivity.
Defined.

(** ** One payment per key *)

Lemma empty_store_one_to_one : one_to_one empty_store.
Proof.
  split; [|split]; simpl.
  - intros pid p H. by rewrite lookup_empty in H.
  - intros key pid H. by rewrite lookup_empty in H.
  - by rewrite !map_size_empty.
Qed.

Lemma create_payment_one_to_one allowed st request key now :
  one_to_one st → one_to_one (create_payment allowed st request key now).1.
Proof.
  intros (Hp & Hc & Hsize).
  destruct (create_payment_store allowed st request key now) as [->|[Hk ->]]; [done|].
  pose proof (fresh_payment_id st) as Hfresh.
  set (pid := fresh (dom (payments st))) in *.
  split; [|split]; simpl.
  - intros pid' q. rewrite lookup_insert. case_decide as Hpid.
    + intros [= <-]. simpl. split; [done|]. subst pid'. apply lookup_insert_eq.
    + intros Hq. destruct (Hp _ _ Hq) as [Hid Hkey]. split; [done|].
      rewrite lookup_insert_ne; [done|]. intros Heq. congruence.
  - intros k pid'. rewrite lookup_insert. case_decide as Hkey.
    + intros [= <-]. exists (new_payment pid request key now).
      rewrite lookup_insert_eq. by subst k.
    + intros Hk'. destruct (Hc _ _ Hk') as (q & Hq & Hck).
      exists q. split; [|done]. rewrite lookup_insert_ne; [done|].
      intros Heq. congruence.
  - rewrite !map_size_insert_None by done. by rewrite Hsize.
Qed.

Lemma receive_webhook_one_to_one st w :
  one_to_one st → one_to_one (receive_webhook st w).1.
Proof.
  intros (Hp & Hc & Hsize).
  assert (∀ pid q, payments (receive_webhook st w).1 !! pid = Some q →
            ∃ p, payments st !! pid = Some p ∧ same_identity q p) as Hback.
  { intros pid q. destruct (decide (pid = wh_payment_id w)) as [->|Hne].
    - destruct (payments st !! wh_payment_id w) as [p|] eqn:Hlook.
      + rewrite (receive_webhook_reconcile _ _ _ Hlook). intros [= <-].
        exists p. split; [done | apply reconcile_identity].
      + rewrite (receive_webhook_unknown _ _ Hlook). simpl. by rewrite Hlook.
    - rewrite receive_webhook_other by done. intros Hq. by exists q. }
  assert (∀ pid p, payments st !! pid = Some p →
            ∃ q, payments (receive_webhook st w).1 !! pid = Some q
                 ∧ same_identity q p) as Hforth.
  { intros pid p Hlook. destruct (decide (pid = wh_payment_id w)) as [->|Hne].
    - exists (reconcile p w). split; [by apply receive_webhook_reconcile|].
      apply reconcile_identity.
    - exists p. by rewrite receive_webhook_other. }
  split; [|split].
  - intros pid q Hq. destruct (Hback _ _ Hq) as (p & Hlook & Hid & Hck & _).
    rewrite receive_webhook_cache, Hid, Hck. by apply Hp.
  - intros key pid. rewrite receive_webhook_cache. intros Hk.
    destruct (Hc _ _ Hk) as (p & Hlook & Hck).
    destruct (Hforth _ _ Hlook) as (q & Hq & _ & Hck' & _).
    exists q. split; [done | congruence].
  - rewrite receive_webhook_cache, <- Hsize.
    rewrite <- !size_dom. by rewrite receive_webhook_dom.
Qed.

Lemma run_one_to_one allowed st rqs :
  one_to_one st → one_to_one (run allowed st rqs).
Proof.
  revert st. induction rqs as [|rq rqs IH]; intros st H; [done|].
  simpl. apply IH. destruct rq; simpl.
  - by apply create_payment_one_to_one.
  - by apply receive_webhook_one_to_one.
Qed.

(** X6: in every store reached from the empty one by creations and
    webhooks there is exactly one payment per idempotency key: the
    payments and the cache have the same number of entries, two
    different keys never lead to the same payment, and every payment is
    reached from the key it was created with. *)
Theorem one_payment_per_key allowed rqs :
  size (payments (run allowed empty_store rqs))
  = size (idempotency_cache (run allowed empty_store rqs))
  ∧ (∀ key1 key2 pid,
       idempotency_cache (run allowed empty_store rqs) !! key1 = Some pid →
       idempotency_cache (run allowed empty_store rqs) !! key2 = Some pid →
       key1 = key2)
  ∧ (∀ pid p,
       payments (run allowed empty_store rqs) !! pid = Some p →
       idempotency_cache (run allowed empty_store rqs) !! creation_key p = Some pid).
Proof.
  destruct (run_one_to_one allowed empty_store rqs empty_store_one_to_one)
    as (Hp & Hc & Hsize).
  split; [done|]. split.
  - intros k1 k2 pid H1 H2.
    destruct (Hc _ _ H1) as (p1 & Hp1 & <-).
    destruct (Hc _ _ H2) as (p2 & Hp2 & <-). congruence.
  - intros pid p Hlook. by apply Hp.
Qed.

(** ** Creation followed by lookup *)

(** X7: on a consistent store, whenever a creation answers with a
    payment, new or existing, a status lookup of that payment's id in
    the resulting store returns exactly the record the creation
    returned. *)
Theorem create_then_get allowed st request key now st' p isNew :
  store_consistent st →
  create_payment allowed st request key now = (st', inr (p, isNew)) →
  get_payment st' (payment_id p) = inr p.
Proof.
  intros [_ Hid]. unfold create_payment, get_payment.
  destruct (valid_request allowed request); simpl; [|done].
  destruct (idempotency_cache st !! key) as [pid|] eqn:Hk.
  - destruct (payments st !! pid) as [q|] eqn:Hq; intros [= <- <- <-].
    rewrite (Hid _ _ Hq). by rewrite Hq.
  - intros [= <- <- <-]. simpl. by rewrite lookup_insert_eq.
Qed.

Lemma create_then_get_witness :
  get_payment demo_store "0" = inr demo_payment.
Proof.
  apply (create_then_get demo_methods empty_store demo_request "k1" 100
           demo_store demo_payment true).
  - apply empty_store_consistent.
  - vm_compute. reflexivity.
Defined.

(** * Masking of e-mail addresses *)

Section MaskEmailFacts.

Context {char : Type} `{EqDecision char}.
Variables (at_sign star : char).

Lemma str_split_nonempty (sep : char) s : str_split sep s ≠ [].
Proof.
  destruct s as [|c s]; simpl; [done|].
  destruct (decide (c = sep)); [done|].
  by destruct (str_split sep s).
Qed.

Lemma str_split_no_sep (sep : char) u : sep ∉ u → str_split sep u = [u].
Proof.
  induction u as [|c u IH]; intros Hu; [done|].
  apply not_elem_of_cons in Hu as [Hc Hu]. simpl.
  destruct (decide (c = sep)) as [->|_]; [done|]. by rewrite IH.
Qed.

Lemma str_split_app_sep (sep : char) u d :
  sep ∉ u → str_split sep (u ++ sep :: d) = u :: str_split sep d.
Proof.
  induction u as [|c u IH]; intros Hu; simpl.
  - by destruct (decide (sep = sep)).
  - apply not_elem_of_cons in Hu as [Hc Hu].
    destruct (decide (c = sep)) as [->|_]; [done|]. by rewrite IH.
Qed.

Lemma str_split_parts (sep : char) s : Forall (λ part, sep ∉ part) (str_split sep s).
Proof.
  induction s as [|c s IH]; simpl.
  - repeat constructor. apply not_elem_of_nil.
  - destruct (decide (c = sep)) as [->|Hc].
    + constructor; [apply not_elem_of_nil | done].
    + destruct (str_split sep s) as [|part parts]; simpl.
      * repeat constructor. apply not_elem_of_cons. split; [done | apply not_elem_of_nil].
      * apply Forall_cons in IH as [Hpart Hparts]. constructor; [|done].
        apply not_elem_of_cons. by split.
Qed.

Lemma str_join_cons (sep : char) part parts :
  parts ≠ [] → str_join sep (part :: parts) = part ++ sep :: str_join sep parts.
Proof. by destruct parts. Qed.

Lemma str_join_split (sep : char) s : str_join sep (str_split sep s) = s.
Proof.
  induction s as [|c s IH]; [done|]. simpl str_split.
  destruct (decide (c = sep)) as [->|Hc].
  - rewrite str_join_cons by apply str_split_nonempty. by rewrite IH.
  - pose proof (str_split_nonempty sep s) as Hne.
    destruct (str_split sep s) as [|part parts]; [done|].
    destruct parts as [|part' parts]; simpl in *; by rewrite IH.
Qed.

Lemma str_split_length (sep : char) s :
  length (str_split sep s) = S (length (filter (λ c, c = sep) s)).
Proof.
  induction s as [|c s IH]; [done|]. simpl str_split.
  destruct (decide (c = sep)) as [Hc|Hc].
  - rewrite filter_cons_True by done. simpl. by rewrite IH.
  - rewrite filter_cons_False by done.
    pose proof (str_split_nonempty sep s) as Hne.
    destruct (str_split sep s) as [|part parts]; [done|]. simpl in *. done.
Qed.

(** X8: s.split(sep) never returns an empty list, returns one piece
    more than there are separators in s, none of the pieces contains
    the separator, and joining the pieces with the separator gives s
    back. *)
Theorem str_split_round_trip (sep : char) (s : list char) :
  str_join sep (str_split sep s) = s
  ∧ length (str_split sep s) = S (length (filter (λ c, c = sep) s))
  ∧ Forall (λ part, sep ∉ part) (str_split sep s).
Proof.
  split; [apply str_join_split|].
  split; [apply str_split_length | apply str_split_parts].
Qed.

Lemma str_split_two (sep : char) s u d :
  str_split sep s = [u; d] ↔ (s = u ++ sep :: d ∧ (sep ∉ u) ∧ (sep ∉ d)).
Proof.
  split.
  - intros Hs. pose proof (str_join_split sep s) as Hj.
    pose proof (str_split_parts sep s) as Hp. rewrite Hs in Hj, Hp.
    apply Forall_cons in Hp as [Hu Hp]. apply Forall_cons in Hp as [Hd _].
    simpl in Hj. done.
  - intros (-> & Hu & Hd).
    rewrite str_split_app_sep by done. by rewrite str_split_no_sep.
Qed.

(** X9: mask_email returns a result exactly when the address contains
    exactly one '@'; with none, or with two or more, the tuple
    assignment fails (ValueError). *)
Theorem mask_email_succeeds_iff (email : list char) :
  is_Some (mask_email at_sign star email)
  ↔ length (filter (λ c, c = at_sign) email) = 1%nat.
Proof.
  pose proof (str_split_length at_sign email) as Hlen.
  unfold mask_email.
  destruct (str_split at_sign email) as [|user [|domain [|x parts]]]; simpl in Hlen.
  - lia.
  - split; [by intros [? [=]] | lia].
  - split; [lia | by eexists].
  - split; [by intros [? [=]] | lia].
Qed.

Lemma mask_email_parts user domain :
  at_sign ∉ user → at_sign ∉ domain →
  mask_email at_sign star (user ++ at_sign :: domain)
  = Some (take 2%nat user ++ [star; star; star; at_sign] ++ domain).
Proof.
  intros Hu Hd. unfold mask_email.
  by rewrite (proj2 (str_split_two at_sign _ user domain)).
Qed.

(** X10: for an address user@domain the mask is the first two
    characters of user (all of it when it is shorter), then ***@, then
    the domain unchanged; its length is min(2, |user|) + 4 + |domain|,
    and two addresses with the same domain whose user parts agree on
    their first two characters get the same mask. *)
Theorem mask_email_reveals_two user domain :
  at_sign ∉ user → at_sign ∉ domain →
  ∃ masked,
    mask_email at_sign star (user ++ at_sign :: domain) = Some masked
    ∧ masked = take 2%nat user ++ [star; star; star; at_sign] ++ domain
    ∧ length masked = (length user `min` 2 + 4 + length domain)%nat
    ∧ ∀ user', at_sign ∉ user' → take 2%nat user' = take 2%nat user →
        mask_email at_sign star (user' ++ at_sign :: domain) = Some masked.
Proof.
  intros Hu Hd. eexists. split; [by apply mask_email_parts|].
  split; [done|]. split.
  - rewrite !length_app, length_take. cbn [length]. lia.
  - intros user' Hu' Htake. rewrite mask_email_parts by done. by rewrite Htake.
Qed.

(** X11: a masked address can be masked again (when '*' and '@' are
    different characters), and masking again gives the same string
    exactly when the user part has at least two characters; for a
    shorter user part the second mask is longer than the first. *)
Theorem mask_email_again user domain :
  star ≠ at_sign →
  at_sign ∉ user → at_sign ∉ domain →
  ∃ masked masked',
    mask_email at_sign star (user ++ at_sign :: domain) = Some masked
    ∧ mask_email at_sign star masked = Some masked'
    ∧ (masked' = masked ↔ (2 ≤ length user)%nat).
Proof.
  intros Hne Hu Hd.
  assert (at_sign ∉ take 2%nat user ++ [star; star; star]) as Hu'.
  { intros Hin. apply elem_of_app in Hin as [Hin|Hin].
    - apply Hu. rewrite <- (take_drop 2 user). apply elem_of_app. by left.
    - repeat (apply elem_of_cons in Hin as [Hin|Hin]; [congruence|]).
      by apply elem_of_nil in Hin. }
  eexists _, _. split; [by apply mask_email_parts|].
  split.
  - replace (take 2%nat user ++ [star; star; star; at_sign] ++ domain)
      with ((take 2%nat user ++ [star; star; star]) ++ at_sign :: domain)
      by (by rewrite <- app_assoc).
    by apply mask_email_parts.
  - destruct user as [|a [|b user]]; simpl; split; intros Hx;
      try lia; try done.
    + apply (f_equal length) in Hx. simpl in Hx. lia.
    + apply (f_equal length) in Hx. simpl in Hx. lia.
Qed.

End MaskEmailFacts.

Lemma mask_email_reveals_two_witness :
  mask_email "@"%char "*"%char (chars "demo" ++ "@"%char :: chars "example.com")
  = Some (chars "de***@example.com").
Proof.
  destruct (mask_email_reveals_two "@"%char "*"%char (chars "demo") (chars "example.com"))
    as (masked & Hm & -> & _).
  - apply (bool_decide_unpack _). vm_compute. reflexivity.
  - apply (bool_decide_unpack _). vm_compute. reflexivity.
  - exact Hm.
Defined.

Lemma mask_email_again_witness :
  ∃ masked masked',
    mask_email "@"%char "*"%char (chars "j" ++ "@"%char :: chars "example.com")
    = Some masked
    ∧ mask_email "@"%char "*"%char masked = Some masked'
    ∧ (masked' = masked ↔ (2 ≤ length (chars "j"))%nat).
Proof.
  apply (mask_email_again "@"%char "*"%char (chars "j") (chars "example.com")).
  - discriminate.
  - apply (bool_decide_unpack _). vm_compute. reflexivity.
  - apply (bool_decide_unpack _). vm_compute. reflexivity.
Defined.

(** * Polling for a payment status *)

Section PollingFacts.

Context {time : Type}.
Variable within_timeout : time → time → bool.

(** X18: when wait_for_payment_status returns a payment, that payment
    has the expected status, it was read while the loop test still held,
    and it is the first such reading: every earlier poll was in time and
    saw another status.  The function never returns a payment with a
    different status. *)
Theorem wait_returns_first_match expected start
    (world : list (time * gmap string string)) payment :
  wait_for_payment_status within_timeout expected start world = Returned payment →
  payment !! "status"%string = Some expected
  ∧ ∃ earlier now later,
      world = earlier ++ (now, payment) :: later
      ∧ within_timeout start now = true
      ∧ Forall (missed within_timeout expected start) earlier.
Proof.
  induction world as [|[now p] world IH]; simpl; [done|].
  destruct (within_timeout start now) eqn:Hin; [|done].
  destruct (p !! "status"%string) as [s|] eqn:Hs; [|done].
  destruct (decide (s = expected)) as [->|Hne].
  - intros [= <-]. split; [done|]. by exists [], now, world.
  - intros Hret. destruct (IH Hret) as (Hst & earlier & now' & later & -> & Hin' & Hall).
    split; [done|]. exists ((now, p) :: earlier), now', later.
    split; [done|]. split; [done|]. constructor; [|done].
    split; [done|]. by exists s.
Qed.

(** X19: as soon as one clock reading fails the loop test the function
    has left the loop: it raises TimeoutError when every poll before
    that reading saw another status, and the payment read at that
    moment is not looked at, even when it already has the expected
    status; in particular a timeout that has expired at the first test
    means that no payment is ever read. *)
Theorem wait_times_out expected start
    (earlier later : list (time * gmap string string)) now payment :
  Forall (missed within_timeout expected start) earlier →
  within_timeout start now = false →
  wait_for_payment_status within_timeout expected start
    (earlier ++ (now, payment) :: later) = TimeoutError.
Proof.
  intros Hall Hout. induction earlier as [|[t p] earlier IH]; simpl.
  - by rewrite Hout.
  - apply Forall_cons in Hall as [(Hin & s & Hs & Hne) Hall]. simpl in *.
    rewrite Hin, Hs. destruct (decide (s = expected)); [done|]. by apply IH.
Qed.

End PollingFacts.

Lemma wait_returns_first_match_witness :
  ({[ "status" := "approved" ]} : gmap string string) !! "status"%string
  = Some "approved"%string.
Proof.
  apply (wait_returns_first_match (λ start now, bool_decide (now - start < 10))
           "approved"%string 0
           [(1, {[ "status"%string := "pending"%string ]});
            (2, {[ "status"%string := "approved"%string ]});
            (3, {[ "status"%string := "declined"%string ]})]).
  vm_compute. reflexivity.
Defined.

Lemma wait_times_out_witness :
  wait_for_payment_status (λ start now, bool_decide (now - start < 0))
    "approved"%string 5
    [(5, {[ "status"%string := "approved"%string ]})] = TimeoutError.
Proof.
  apply (wait_times_out (λ start now, bool_decide (now - start < 0))
           "approved"%string 5 [] [] 5).
  - constructor.
  - vm_compute. reflexivity.
Defined.

(** * The checkout page *)

Module FrontendFacts.
Import Frontend.

Local Open Scope string_scope.

Lemma filter_delete_length {A} (P : A → Prop) `{∀ x, Decision (P x)} (l : list A) i t :
  l !! i = Some t →
  length (filter P l)
  = ((if decide (P t) then 1 else 0) + length (filter P (delete i l)))%nat.
Proof.
  revert i. induction l as [|x l IH]; intros i Hi; [done|].
  destruct i as [|i]; simpl in Hi.
  - injection Hi as ->. simpl delete.
    destruct (decide (P t)).
    + rewrite filter_cons_True by done. simpl. lia.
    + rewrite filter_cons_False by done. simpl. lia.
  - simpl delete. specialize (IH i Hi).
    destruct (decide (P x)).
    + rewrite !filter_cons_True by done. simpl. lia.
    + rewrite !filter_cons_False by done. lia.
Qed.

Lemma creations_app pg_state l t snt :
  creations_in_flight {| state := pg_state; suspended := l ++ [t]; sent := snt |}
  = (length (filter (λ t, is_create t = true) l) + (if is_create t then 1 else 0))%nat.
Proof.
  unfold creations_in_flight. simpl. rewrite filter_app, length_app.
  destruct (is_create t) eqn:Ht.
  - by rewrite filter_cons_True.
  - rewrite filter_cons_False; [done|]. congruence.
Qed.

Section Reachable.

Variable env_api_url : option string.

Lemma step_single_flight pg ev pg' :
  creations_in_flight pg = (if loading (state pg) then 1 else 0)%nat →
  step env_api_url pg ev = Some pg' →
  creations_in_flight pg' = (if loading (state pg') then 1 else 0)%nat.
Proof.
  intros Hinv. destruct ev as [|origin uuid|c now|i random|i data|i detail]; simpl.
  - intros [= <-]. done.
  - unfold create_enabled. destruct (loading (state pg)) eqn:Hl; simpl; [done|].
    intros [= <-]. unfold createPayment.
    destruct (demoMode (state pg)); rewrite creations_app; simpl;
      unfold creations_in_flight in Hinv; lia.
  - destruct (webhook_buttons_shown (state pg)); [|done].
    intros [= <-]. unfold simulateWebhook.
    destruct (payment (state pg)); [|done].
    destruct (demoMode (state pg)); rewrite creations_app; simpl;
      unfold creations_in_flight in Hinv; lia.
  - destruct (suspended pg !! i) as [t|] eqn:Hi; simpl; [|done].
    unfold creations_in_flight in Hinv.
    rewrite (filter_delete_length _ _ _ _ Hi) in Hinv.
    destruct t; simpl; try done; intros [= <-];
      unfold creations_in_flight; simpl in *;
      repeat case_decide; try done; destruct (loading (state pg)); lia.
  - destruct (suspended pg !! i) as [t|] eqn:Hi; simpl; [|done].
    unfold creations_in_flight in Hinv.
    rewrite (filter_delete_length _ _ _ _ Hi) in Hinv.
    destruct t; simpl; try done; intros [= <-];
      try rewrite creations_app;
      unfold creations_in_flight; simpl in *;
      repeat case_decide; try done; destruct (loading (state pg)); lia.
  - destruct (suspended pg !! i) as [t|] eqn:Hi; simpl; [|done].
    unfold creations_in_flight in Hinv.
    rewrite (filter_delete_length _ _ _ _ Hi) in Hinv.
    destruct t; simpl; try done; intros [= <-];
      unfold creations_in_flight; simpl in *;
      repeat case_decide; try done; destruct (loading (state pg)); lia.
Qed.

(** X12: however clicks, delays, responses and failures interleave,
    at most one createPayment is suspended at its await, and the loading
    flag is set exactly while one is: the create button (disabled while
    loading) cannot start a second creation before the first has
    finished, and a finished creation, successful or failed, always
    re-enables it. *)
Theorem loading_single_flight evs pg :
  steps env_api_url initial_page evs = Some pg →
  creations_in_flight pg = (if loading (state pg) then 1 else 0)%nat.
Proof.
  assert (∀ pg0, creations_in_flight pg0 = (if loading (state pg0) then 1 else 0)%nat →
                 steps env_api_url pg0 evs = Some pg →
                 creations_in_flight pg = (if loading (state pg) then 1 else 0)%nat)
    as Hgen.
  { induction evs as [|ev evs IH]; intros pg0 Hinv; simpl.
    - by intros [= <-].
    - destruct (step env_api_url pg0 ev) as [pg1|] eqn:Hstep; simpl; [|done].
      apply IH. by eapply step_single_flight. }
  by apply Hgen.
Qed.

End Reachable.

Lemma loading_single_flight_witness :
  creations_in_flight
    {| state := {| loading := true; payment := None; error := None;
                   demoMode := true; apiUrl := "http://localhost:8000" |};
       suspended := [CreateDelay]; sent := [] |} = 1%nat.
Proof.
  apply (loading_single_flight None
           [Mounted; ClickCreate "http://localhost:3000" "u1"]).
  vm_compute. reflexivity.
Defined.


Lemma detail_or_truthy detail fallback :
  fallback ≠ EmptyString → detail_or detail fallback ≠ ErrorText EmptyString.
Proof.
  intros Hf. unfold detail_or. destruct detail as [|text|repr]; [congruence| |done].
  destruct (decide (text = EmptyString)); congruence.
Qed.

Section DemoMode.

Variable env_api_url : option string.
Hypothesis env_unset : env_api_url = None ∨ env_api_url = Some EmptyString.

Lemma mount_demo s : demoMode (mount env_api_url s) = true.
Proof. by destruct env_unset as [-> | ->]. Qed.

Lemma demo_shaped_data random : demo_shaped (demo_payment_data random).
Proof. split; [by exists random|]. split; [by left | done]. Qed.

Lemma demo_shaped_with_status p st :
  demo_shaped p → st = "approved" ∨ st = "declined" →
  demo_shaped (with_status p st).
Proof.
  intros (Hid & _ & Hrest) Hst. split; [done|]. split; [|done].
  simpl. tauto.
Qed.

Lemma step_demo_invariant pg ev pg' :
  demo_invariant pg → step env_api_url pg ev = Some pg' → demo_invariant pg'.
Proof.
  intros (Hdemo & Hsent & Herr & Hsusp & Hpay).
  destruct ev as [|origin uuid|c now|i random|i data|i detail]; simpl.
  - intros [= <-]. split; [apply mount_demo | done].
  - destruct (create_enabled (state pg)); [|done]. intros [= <-].
    unfold createPayment. rewrite Hdemo.
    split; [done|]. split; [done|]. split; [done|]. split; [|done].
    apply Forall_app. split; [done|]. by apply Forall_singleton.
  - unfold webhook_buttons_shown, simulateWebhook.
    destruct (payment (state pg)) as [p|] eqn:Hp; [|done].
    case_bool_decide; [|done]. intros [= <-]. rewrite Hdemo.
    split; [done|]. split; [done|]. split; [done|]. split.
    + apply Forall_app. split; [done|]. apply Forall_singleton. simpl.
      split; [by apply Hpay | destruct c; simpl; tauto].
    + simpl. by rewrite Hp.
  - destruct (suspended pg !! i) as [t|] eqn:Hi; simpl; [|done].
    pose proof (Forall_lookup_1 _ _ _ _ Hsusp Hi) as Ht.
    destruct t as [| |captured st| |]; simpl in Ht; try done; intros [= <-].
    + split; [done|]. split; [done|]. split; [done|].
      split; [by apply Forall_delete|].
      simpl. intros p [= <-]. apply demo_shaped_data.
    + destruct Ht as [Hcap Hst].
      split; [done|]. split; [done|]. split; [done|].
      split; [by apply Forall_delete|].
      simpl. intros p [= <-]. by apply demo_shaped_with_status.
  - destruct (suspended pg !! i) as [t|] eqn:Hi; simpl; [|done].
    pose proof (Forall_lookup_1 _ _ _ _ Hsusp Hi) as Ht.
    by destruct t.
  - destruct (suspended pg !! i) as [t|] eqn:Hi; simpl; [|done].
    pose proof (Forall_lookup_1 _ _ _ _ Hsusp Hi) as Ht.
    by destruct t.
Qed.

Lemma steps_demo_invariant evs : ∀ pg pg',
  demo_invariant pg → steps env_api_url pg evs = Some pg' → demo_invariant pg'.
Proof.
  induction evs as [|ev evs IH]; intros pg pg' Hinv; simpl.
  - by intros [= <-].
  - destruct (step env_api_url pg ev) as [pg1|] eqn:Hstep; simpl; [|done].
    apply IH. by eapply step_demo_invariant.
Qed.

Lemma initial_demo_invariant : demo_invariant initial_page.
Proof. by repeat split. Qed.

(** X13: when NEXT_PUBLIC_API_URL is unset or empty the page stays in
    demo mode whatever the user does: it never sends an HTTP request and
    never sets an error, and no response or failure event can occur
    since no handler ever waits for an HTTP call. *)
Theorem demo_mode_is_local evs pg :
  steps env_api_url initial_page evs = Some pg →
  demoMode (state pg) = true ∧ sent pg = [] ∧ error (state pg) = None
  ∧ (∀ i data, step env_api_url pg (Responded i data) = None)
  ∧ (∀ i detail, step env_api_url pg (Failed i detail) = None).
Proof.
  intros Hsteps.
  destruct (steps_demo_invariant _ _ _ initial_demo_invariant Hsteps)
    as (Hdemo & Hsent & Herr & Hsusp & _).
  split; [done|]. split; [done|]. split; [done|].
  split; intros i x; simpl;
    (destruct (suspended pg !! i) as [t|] eqn:Hi; simpl; [|done]);
    pose proof (Forall_lookup_1 _ _ _ _ Hsusp Hi) as Ht; by destruct t.
Qed.

(** X14: in demo mode every payment the page ever displays has an id
    starting with pay_demo_, the amount 50000, the currency COP, the
    demo redirect URL, and one of the statuses pending, approved,
    declined. *)
Theorem demo_payment_shape evs pg p :
  steps env_api_url initial_page evs = Some pg →
  payment (state pg) = Some p →
  (∃ random, payment_id p = "pay_demo_" +:+ random)
  ∧ (status p = "pending" ∨ status p = "approved" ∨ status p = "declined")
  ∧ redirect_url p = Some "https://banco-azul.example.com/pay/demo"
  ∧ amount p = "50000" ∧ currency p = "COP".
Proof.
  intros Hsteps Hp.
  destruct (steps_demo_invariant _ _ _ initial_demo_invariant Hsteps)
    as (_ & _ & _ & _ & Hpay).
  by apply Hpay.
Qed.

End DemoMode.

Lemma demo_mode_is_local_witness :
  sent {| state := {| loading := false;
                      payment := Some (with_status (demo_payment_data "x7k") "approved");
                      error := None; demoMode := true;
                      apiUrl := "http://localhost:8000" |};
          suspended := []; sent := [] |} = [].
Proof.
  apply (demo_mode_is_local None (or_introl eq_refl)
           [Mounted; ClickCreate "http://localhost:3000" "u1"; DelayElapsed 0 "x7k";
            ClickWebhook Approve "2024-01-15T10:30:00Z"; DelayElapsed 0 "r"]).
  vm_compute. reflexivity.
Defined.

Lemma demo_payment_shape_witness :
  status (with_status (demo_payment_data "x7k") "approved") = "pending"
  ∨ status (with_status (demo_payment_data "x7k") "approved") = "approved"
  ∨ status (with_status (demo_payment_data "x7k") "approved") = "declined".
Proof.
  apply (demo_payment_shape (Some EmptyString) (or_intror eq_refl)
           [Mounted; ClickCreate "http://localhost:3000" "u1"; DelayElapsed 0 "x7k";
            ClickWebhook Approve "2024-01-15T10:30:00Z"; DelayElapsed 0 "r"]
           {| state := {| loading := false;
                          payment := Some (with_status (demo_payment_data "x7k") "approved");
                          error := None; demoMode := true;
                          apiUrl := "http://localhost:8000" |};
              suspended := []; sent := [] |}).
  - vm_compute. reflexivity.
  - reflexivity.
Defined.

Section AnyMode.

Variable env_api_url : option string.

Lemma step_error_truthy pg ev pg' :
  error (state pg) ≠ Some (ErrorText EmptyString) →
  step env_api_url pg ev = Some pg' →
  error (state pg') ≠ Some (ErrorText EmptyString).
Proof.
  intros Hinv. destruct ev as [|origin uuid|c now|i random|i data|i detail]; simpl.
  - by intros [= <-].
  - destruct (create_enabled (state pg)); [|done]. intros [= <-].
    unfold createPayment. by destruct (demoMode (state pg)).
  - destruct (webhook_buttons_shown (state pg)); [|done]. intros [= <-].
    unfold simulateWebhook. destruct (payment (state pg)); [|done].
    by destruct (demoMode (state pg)).
  - destruct (suspended pg !! i) as [t|]; simpl; [|done].
    destruct t; simpl; try done; by intros [= <-].
  - destruct (suspended pg !! i) as [t|]; simpl; [|done].
    destruct t; simpl; try done; by intros [= <-].
  - destruct (suspended pg !! i) as [t|]; simpl; [|done].
    destruct t; simpl; try done; intros [= <-]; simpl; intros [= Heq];
      by apply detail_or_truthy in Heq.
Qed.

(** X15: in either mode the stored error is never falsy: a string
    error is never empty, because a failure without a detail, or with an
    empty one, stores the handler's fallback text, and a detail that is
    not a string is stored only when it is truthy.  So the guard
    [error &&] of the error box is passed whenever an error is set. *)
Theorem error_never_falsy evs pg :
  steps env_api_url initial_page evs = Some pg →
  error (state pg) ≠ Some (ErrorText EmptyString)
  ∧ (error_shown (state pg) = true ↔ is_Some (error (state pg))).
Proof.
  intros Hsteps.
  assert (error (state pg) ≠ Some (ErrorText EmptyString)) as Hne.
  { assert (∀ pg0, error (state pg0) ≠ Some (ErrorText EmptyString) →
                   steps env_api_url pg0 evs = Some pg →
                   error (state pg) ≠ Some (ErrorText EmptyString)) as Hgen.
    { clear Hsteps. induction evs as [|ev evs IH]; intros pg0 Hinv; simpl.
      - by intros [= <-].
      - destruct (step env_api_url pg0 ev) as [pg1|] eqn:Hstep; simpl; [|done].
        apply IH. by eapply step_error_truthy. }
    by apply (Hgen initial_page). }
  split; [done|].
  unfold error_shown. destruct (error (state pg)) as [[text|repr]|].
  - case_bool_decide; simpl; [congruence|]. split; [by eexists | done].
  - split; [by eexists | done].
  - split; [done | by intros [? ?]].
Qed.

(** X16: on a demo page that displays a pending payment, a click on a
    webhook button followed by the end of its delay replaces the
    displayed payment by the same payment with the chosen status and
    changes nothing else: loading, error, demoMode and apiUrl, the other
    suspended handlers and the requests sent are as before.  After that
    the webhook buttons are no longer rendered, so no further webhook
    click is possible for this payment. *)
Theorem decision_hides_buttons pg p c now random :
  demoMode (state pg) = true →
  payment (state pg) = Some p →
  status p = "pending" →
  ∃ pg',
    steps env_api_url pg
      [ClickWebhook c now; DelayElapsed (length (suspended pg)) random] = Some pg'
    ∧ state pg' = set_payment (with_status p (choice_status c)) (state pg)
    ∧ payment (state pg') = Some (with_status p (choice_status c))
    ∧ loading (state pg') = loading (state pg)
    ∧ error (state pg') = error (state pg)
    ∧ demoMode (state pg') = demoMode (state pg)
    ∧ apiUrl (state pg') = apiUrl (state pg)
    ∧ suspended pg' = suspended pg ∧ sent pg' = sent pg
    ∧ webhook_buttons_shown (state pg') = false
    ∧ ∀ c' now', step env_api_url pg' (ClickWebhook c' now') = None.
Proof.
  intros Hdemo Hp Hst. simpl.
  unfold webhook_buttons_shown, simulateWebhook. rewrite Hp, Hst, Hdemo. simpl.
  rewrite list_lookup_middle by done. simpl.
  eexists. split; [done|]. simpl.
  split; [done|]. split; [done|]. split; [done|]. split; [done|].
  split; [done|]. split; [done|]. split.
  { rewrite delete_middle. by rewrite app_nil_r. }
  split; [done|]. split; [by destruct c|]. intros c' now'. by destruct c.
Qed.

(** X17: on a demo page that displays a pending payment, two clicks on
    webhook buttons before either delay has elapsed are both accepted:
    when the first delay elapses the page displays the first choice, and
    when the second elapses the payment captured at the second click
    replaces it, so the page ends with the second choice although the
    buttons had disappeared in between. *)
Theorem second_click_overrides pg p c1 c2 now1 now2 random1 random2 :
  demoMode (state pg) = true →
  payment (state pg) = Some p →
  status p = "pending" →
  ∃ pg1 pg2,
    steps env_api_url pg
      [ClickWebhook c1 now1; ClickWebhook c2 now2;
       DelayElapsed (length (suspended pg)) random1] = Some pg1
    ∧ payment (state pg1) = Some (with_status p (choice_status c1))
    ∧ webhook_buttons_shown (state pg1) = false
    ∧ step env_api_url pg1 (DelayElapsed (length (suspended pg)) random2) = Some pg2
    ∧ payment (state pg2) = Some (with_status p (choice_status c2)).
Proof.
  intros Hdemo Hp Hst. simpl.
  unfold webhook_buttons_shown, simulateWebhook. rewrite Hp, Hst, Hdemo. simpl.
  rewrite Hp, Hst, Hdemo. simpl.
  rewrite <- app_assoc. simpl.
  rewrite list_lookup_middle by done. simpl.
  rewrite delete_middle.
  eexists _, _. split; [done|]. simpl.
  split; [done|]. split; [by destruct c1|].
  rewrite list_lookup_middle by done. simpl. done.
Qed.

End AnyMode.

Lemma error_never_falsy_witness :
  error_shown
    {| loading := false; payment := None;
       error := Some (ErrorText "Failed to create payment"); demoMode := false;
       apiUrl := "https://api.example.com" |} = true
  ↔ is_Some (Some (ErrorText "Failed to create payment")).
Proof.
  apply (error_never_falsy (Some "https://api.example.com")
           [Mounted; ClickCreate "http://localhost:3000" "u1";
            Failed 0 (TextDetail EmptyString)]
           {| state := {| loading := false; payment := None;
                          error := Some (ErrorText "Failed to create payment");
                          demoMode := false;
                          apiUrl := "https://api.example.com" |};
              suspended := [];
              sent := [PostPayments "https://api.example.com/payments"
                         (create_body "http://localhost:3000") "u1"] |}).
  vm_compute. reflexivity.
Defined.

Lemma decision_hides_buttons_witness :
  ∃ pg',
    steps None
      {| state := set_payment (demo_payment_data "x7k") initial_state;
         suspended := []; sent := [] |}
      [ClickWebhook Decline "2024-01-15T10:30:00Z"; DelayElapsed 0 "r"] = Some pg'
    ∧ state pg'
      = set_payment (with_status (demo_payment_data "x7k") "declined") initial_state.
Proof.
  destruct (decision_hides_buttons None
              {| state := set_payment (demo_payment_data "x7k") initial_state;
                 suspended := []; sent := [] |}
              (demo_payment_data "x7k") Decline "2024-01-15T10:30:00Z" "r")
    as (pg' & Hsteps & Hstate & _); [reflexivity | reflexivity | reflexivity |].
  exists pg'. split; [exact Hsteps | exact Hstate].
Defined.

Lemma second_click_overrides_witness :
  ∃ pg1 pg2,
    steps None
      {| state := set_payment (demo_payment_data "x7k") initial_state;
         suspended := []; sent := [] |}
      [ClickWebhook Approve "t1"; ClickWebhook Decline "t2"; DelayElapsed 0 "r1"]
    = Some pg1
    ∧ payment (state pg1) = Some (with_status (demo_payment_data "x7k") "approved")
    ∧ step None pg1 (DelayElapsed 0 "r2") = Some pg2
    ∧ payment (state pg2) = Some (with_status (demo_payment_data "x7k") "declined").
Proof.
  destruct (second_click_overrides None
              {| state := set_payment (demo_payment_data "x7k") initial_state;
                 suspended := []; sent := [] |}
              (demo_payment_data "x7k") Approve Decline "t1" "t2" "r1" "r2")
    as (pg1 & pg2 & H1 & H2 & _ & H3 & H4); [reflexivity | reflexivity | reflexivity |].
  exists pg1, pg2. repeat split; assumption.
Defined.

End FrontendFacts.
